(** * Share links of the scheduling application: the sharing service

    A shallow embedding of the class [SharingService] of
    [services/sharingService.js] and the properties of its share-link
    registry.

    The service keeps the registry [this.shareLinks], a JS object used as a
    map from share id to share record, and mirrors it into the
    [localStorage] item ['checkmate_share_links'] after every mutation.
    Three things the methods read from their environment are arguments of
    the embedded functions:
    - the clock: each [new Date()] is an argument [now], the time value in
      milliseconds;
    - [Math.random]: the argument [rnd] gives, for the i-th turn of the loop
      of [generateShareId], the index [Math.floor(Math.random() * 62)];
    - the item ['checkmate_users'] read by [getUserData]: the argument
      [users].

    Property lookup [this.shareLinks[shareId]] goes through the own keys
    of the registry object and then through what it inherits from
    [Object.prototype]; share records have the shape
    [generateShareLink] writes, with boolean permission fields, and the
    counter [accessCount] as an integer (the values for which the JS
    increment is exact). The helper [createTestShareLink], a call of
    [generateShareLink] followed by one of [getSharedScheduleData], is not
    embedded on its own.

    The first part of the theorems settles the properties claimed of the
    registry; the second part, from [generateShareId_shape] on, adds
    properties of the generated ids, of the owner's list and statistics,
    of the stored item, and of [getPermissionLabel] of the component
    [ScheduleSharing]. *)

From stdpp Require Import gmap strings list fin_maps.
From Stdlib Require Import ZArith.

(** ** Data *)

(** What [new Date(s)] reads from a stored date string: a time value, or
    the invalid date (time value NaN) when [s] does not parse. *)
Inductive JsDate : Type :=
  | DateAt (ms : Z)
  | InvalidDate.

#[global] Instance JsDate_eq_dec : EqDecision JsDate.
Proof. solve_decision. Defined.

(** The permission object stored in a share record. *)
Record Permissions : Type := mkPermissions {
  canViewEvents : bool;
  canViewAvailability : bool;
  canViewStatus : bool;
  canViewDetails : bool
}.

#[global] Instance Permissions_eq_dec : EqDecision Permissions.
Proof. solve_decision. Defined.

(** The [permissions] argument of [generateShareLink] and of
    [updateShareLinkPermissions]: an object in which every key may be
    missing ([None]). *)
Module Arg.
Record t : Type := mk {
  canViewEvents : option bool;
  canViewAvailability : option bool;
  canViewStatus : option bool;
  canViewDetails : option bool;
  expiresAt : option JsDate
}.

(** The default value [{}] of the parameter. *)
Definition empty : t := mk None None None None None.
End Arg.

(** A share record, the value of [this.shareLinks[shareId]]. *)
Record ShareData : Type := mkShareData {
  id : string;
  userId : string;
  link : string;
  permissions : Permissions;
  createdAt : Z;
  expiresAt : option JsDate;
  isActive : bool;
  accessCount : Z;
  lastAccessed : option Z
}.

#[global] Instance ShareData_eq_dec : EqDecision ShareData.
Proof. solve_decision. Defined.

(** An event of a user's calendar and the other parts of a user record the
    service hands on; it never looks inside them. *)
Record Event : Type := mkEvent {
  eventId : string;
  title : string;
  start : string;
  finish : string
}.

Record Status : Type := mkStatus {
  statusName : string;
  icon : string;
  color : string
}.

Record Availability : Type := mkAvailability {
  timezone : string;
  workStart : string;
  workEnd : string
}.

(** A user record of the item ['checkmate_users']: [events], [availability]
    and [currentStatus] may be missing. *)
Module User.
Record t : Type := mk {
  fullName : string;
  email : string;
  events : option (list Event);
  availability : option Availability;
  currentStatus : option Status
}.
End User.

(** The object [sharedData] built by [getSharedScheduleData]. For
    [availability], [None] is the empty object [{}]; for [email] and
    [currentStatus], [None] is [null] or a missing value. *)
Module View.
Record user_t : Type := mkUser {
  name : string;
  email : option string
}.

Record info_t : Type := mkInfo {
  createdAt : Z;
  accessCount : Z;
  permissions : Permissions
}.

Record t : Type := mk {
  user : user_t;
  events : list Event;
  availability : option Availability;
  currentStatus : option Status;
  shareInfo : info_t
}.
End View.

(** ** What the registry object inherits

    [this.shareLinks] is a plain object, so [this.shareLinks[shareId]]
    finds, for a key the registry does not hold itself, the members every
    object inherits from [Object.prototype]: the twelve below, all of them
    functions but [__proto__], which is [Object.prototype] itself. The
    methods that test [this.shareLinks[shareId]] for truth and then assign
    to it write on these objects: [isActive = false] and
    [permissions = {...}]. Written on [Object.prototype], the two
    properties are in turn inherited by every object, the registry
    included, under the keys [isActive] and [permissions]. *)
Definition builtinKeys : list string :=
  ["constructor"; "__proto__"; "hasOwnProperty"; "isPrototypeOf";
   "propertyIsEnumerable"; "toLocaleString"; "toString"; "valueOf";
   "__defineGetter__"; "__defineSetter__"; "__lookupGetter__";
   "__lookupSetter__"].

(** A permission object made by the spread on such a member: the keys the
    arguments gave it, whether [isActive = false] was written on it, and
    the object written as its own [permissions], if any. *)
#[local] Unset Elimination Schemes.
Inductive PObj : Type :=
  mkPObj (keys : Arg.t) (revoked : bool) (nested : option PObj).
#[local] Set Elimination Schemes.

Definition keysOf (o : PObj) : Arg.t := let (k, _, _) := o in k.
Definition revokedOf (o : PObj) : bool := let (_, r, _) := o in r.
Definition nestedOf (o : PObj) : option PObj := let (_, _, n) := o in n.

(** What the methods have written on one of the twelve members: whether
    [isActive = false], and the object under [permissions]. *)
Record MemberProps : Type := mkMemberProps {
  memberRevoked : bool;
  memberPermissions : option PObj
}.

(** The state of the service: the registry in memory, the mirror of it in
    [localStorage] ([None] when the item is not there), whether
    [localStorage.setItem] goes through ([saveShareLinks] catches the
    exception of a write that does not), and what has been written on the
    inherited members, by name. The field [sharedSchedules] of the class
    is loaded and cleared but read by no method, and left out. *)
Record Service : Type := mkService {
  shareLinks : gmap string ShareData;
  storedShareLinks : option (gmap string ShareData);
  storageWritable : bool;
  inherited : gmap string MemberProps
}.

(** ** Setters for the fields the methods assign *)

Definition set_isActive (b : bool) (sl : ShareData) : ShareData :=
  mkShareData (id sl) (userId sl) (link sl) (permissions sl) (createdAt sl)
    (expiresAt sl) b (accessCount sl) (lastAccessed sl).

Definition set_permissions (p : Permissions) (sl : ShareData) : ShareData :=
  mkShareData (id sl) (userId sl) (link sl) p (createdAt sl)
    (expiresAt sl) (isActive sl) (accessCount sl) (lastAccessed sl).

Definition set_accessCount (n : Z) (sl : ShareData) : ShareData :=
  mkShareData (id sl) (userId sl) (link sl) (permissions sl) (createdAt sl)
    (expiresAt sl) (isActive sl) n (lastAccessed sl).

Definition set_lastAccessed (d : option Z) (sl : ShareData) : ShareData :=
  mkShareData (id sl) (userId sl) (link sl) (permissions sl) (createdAt sl)
    (expiresAt sl) (isActive sl) (accessCount sl) d.

Definition set_shareLinks (m : gmap string ShareData) (s : Service) : Service :=
  mkService m (storedShareLinks s) (storageWritable s) (inherited s).

Definition set_inherited (r : gmap string MemberProps) (s : Service) : Service :=
  mkService (shareLinks s) (storedShareLinks s) (storageWritable s) r.

(** ** Lookup through the prototype chain *)

Definition memberProps (r : gmap string MemberProps) (b : string)
  : MemberProps :=
  default (mkMemberProps false None) (r !! b).

(** [Object.prototype.permissions] and [Object.prototype.isActive]. *)
Definition protoPermissions (r : gmap string MemberProps) : option PObj :=
  memberPermissions (memberProps r "__proto__").

Definition protoRevoked (r : gmap string MemberProps) : bool :=
  memberRevoked (memberProps r "__proto__").

(** What a key that is not the registry's own resolves to: one of the
    twelve members, the object under [Object.prototype.permissions], the
    [false] under [Object.prototype.isActive], or nothing. *)
Inductive Inherited : Type :=
  | Member (name : string)
  | ProtoPermissions (o : PObj)
  | ProtoIsActive
  | Absent.

Definition inheritedValue (r : gmap string MemberProps) (k : string)
  : Inherited :=
  if bool_decide (k ∈ builtinKeys) then Member k
  else if bool_decide (k = "permissions") then
    match protoPermissions r with
    | Some o => ProtoPermissions o
    | None => Absent
    end
  else if bool_decide (k = "isActive") then
    if protoRevoked r then ProtoIsActive else Absent
  else Absent.

(** Whether [if (this.shareLinks[shareId])] passes on such a value. *)
Definition truthy (i : Inherited) : bool :=
  match i with
  | Member _ | ProtoPermissions _ => true
  | ProtoIsActive | Absent => false
  end.

(** The value of [this.shareLinks[shareId]]: a share record of the
    registry, or what the key inherits ([NotOwn Absent] is [undefined]). *)
Inductive Found : Type :=
  | Own (sl : ShareData)
  | NotOwn (i : Inherited).

(** The spread [{ ...old, ...permissions }] when [old] is a permission
    object of a member, or [undefined]: the own properties of [old], then
    the keys of the argument. *)
Definition mergeArg (old p : Arg.t) : Arg.t :=
  Arg.mk
    (from_option Some (Arg.canViewEvents old) (Arg.canViewEvents p))
    (from_option Some (Arg.canViewAvailability old) (Arg.canViewAvailability p))
    (from_option Some (Arg.canViewStatus old) (Arg.canViewStatus p))
    (from_option Some (Arg.canViewDetails old) (Arg.canViewDetails p))
    (from_option Some (Arg.expiresAt old) (Arg.expiresAt p)).

Definition spread (old : option PObj) (p : Arg.t) : PObj :=
  match old with
  | Some o => mkPObj (mergeArg (keysOf o) p) (revokedOf o) (nestedOf o)
  | None => mkPObj p false None
  end.

(** [member.isActive = false] and [member.permissions = {...}] for a key
    that resolved to something inherited and true. A member without a
    [permissions] of its own reads the one of [Object.prototype] (the
    object under [Object.prototype.permissions] reads itself). For
    [ProtoIsActive] and [Absent] the methods do not get this far. *)
Definition writeIsActive (i : Inherited) (r : gmap string MemberProps)
  : gmap string MemberProps :=
  match i with
  | Member b =>
      <[b := mkMemberProps true (memberPermissions (memberProps r b))]> r
  | ProtoPermissions o =>
      <["__proto__" :=
          mkMemberProps (protoRevoked r)
            (Some (mkPObj (keysOf o) true (nestedOf o)))]> r
  | ProtoIsActive | Absent => r
  end.

Definition writePermissions (i : Inherited) (p : Arg.t)
    (r : gmap string MemberProps) : gmap string MemberProps :=
  match i with
  | Member b =>
      let old :=
        match memberPermissions (memberProps r b) with
        | Some o => Some o
        | None => if bool_decide (b = "__proto__") then None
                  else protoPermissions r
        end in
      <[b := mkMemberProps (memberRevoked (memberProps r b))
               (Some (spread old p))]> r
  | ProtoPermissions o =>
      let old := default o (nestedOf o) in
      <["__proto__" :=
          mkMemberProps (protoRevoked r)
            (Some (mkPObj (keysOf o) (revokedOf o)
                     (Some (spread (Some old) p))))]> r
  | ProtoIsActive | Absent => r
  end.

(** ** The methods of [SharingService] *)

(** [saveShareLinks]: [setItem] of the whole registry, a failure caught. *)
Definition saveShareLinks (s : Service) : Service :=
  if storageWritable s
  then mkService (shareLinks s) (Some (shareLinks s)) true (inherited s)
  else s.

(** [loadShareLinks] and the constructor: the registry is the stored item,
    or [{}] without one. The module is loaded with the page, on whose
    inherited members nothing has been written yet. *)
Definition loadShareLinks (stored : option (gmap string ShareData))
  : gmap string ShareData :=
  default ∅ stored.

Definition constructor (stored : option (gmap string ShareData))
    (writable : bool) : Service :=
  mkService (loadShareLinks stored) stored writable ∅.

(** [generateShareId]: sixteen characters of [chars]. [charAt] gives the
    empty string out of range, as in JS. *)
Definition chars : string :=
  "ABCDEFGHIJKLMNOPQRSTUVWXYZabcdefghijklmnopqrstuvwxyz0123456789".

Definition charAt (s : string) (i : nat) : string :=
  match String.get i s with
  | Some c => String c EmptyString
  | None => EmptyString
  end.

Fixpoint generateShareId_loop (rnd : nat -> nat) (i n : nat)
    (result : string) : string :=
  match n with
  | O => result
  | S n' => generateShareId_loop rnd (S i) n' (result +:+ charAt chars (rnd i))
  end.

Definition generateShareId (rnd : nat -> nat) : string :=
  generateShareId_loop rnd 0 16 EmptyString.

(** [x !== false] and [x || false] on a key that is a boolean or missing. *)
Definition not_false (x : option bool) : bool :=
  match x with
  | Some false => false
  | _ => true
  end.

Definition or_false (x : option bool) : bool :=
  match x with
  | Some true => true
  | _ => false
  end.

Definition defaultPermissions (p : Arg.t) : Permissions :=
  {| canViewEvents := not_false (Arg.canViewEvents p);
     canViewAvailability := not_false (Arg.canViewAvailability p);
     canViewStatus := not_false (Arg.canViewStatus p);
     canViewDetails := or_false (Arg.canViewDetails p) |}.

Definition generateShareLink (origin : string) (rnd : nat -> nat) (now : Z)
    (uid : string) (p : Arg.t) (s : Service) : ShareData * Service :=
  let shareId := generateShareId rnd in
  let shareLink := origin +:+ "?shared=" +:+ shareId in
  let shareData :=
    {| id := shareId;
       userId := uid;
       link := shareLink;
       permissions := defaultPermissions p;
       createdAt := now;
       expiresAt := Arg.expiresAt p;
       isActive := true;
       accessCount := 0;
       lastAccessed := None |} in
  (shareData,
   saveShareLinks (set_shareLinks (<[shareId := shareData]> (shareLinks s)) s)).

Definition getShareLink (shareId : string) (s : Service) : Found :=
  match shareLinks s !! shareId with
  | Some sl => Own sl
  | None => NotOwn (inheritedValue (inherited s) shareId)
  end.

(** [Object.values(...).filter(...)]; the order of [Object.values] is not
    modelled. *)
Definition getUserShareLinks (uid : string) (s : Service) : list ShareData :=
  filter (fun l => userId l = uid) (map_to_list (shareLinks s)).*2.

(** [if (this.shareLinks[shareId])] is true for a record of the registry
    and for an inherited function or object; the assignment and the save
    follow in both cases. *)
Definition revokeShareLink (shareId : string) (s : Service) : bool * Service :=
  match shareLinks s !! shareId with
  | Some sl =>
      (true,
       saveShareLinks
         (set_shareLinks (<[shareId := set_isActive false sl]> (shareLinks s)) s))
  | None =>
      match inheritedValue (inherited s) shareId with
      | (Member _ | ProtoPermissions _) as i =>
          (true, saveShareLinks (set_inherited (writeIsActive i (inherited s)) s))
      | ProtoIsActive | Absent => (false, s)
      end
  end.

(** The spread [{ ...old, ...permissions }] on the four keys of the
    permission object: a key of the argument wins, a missing one keeps the
    old value. A key [expiresAt] of the argument would become one more key
    of the permission object, which no method reads; the [expiresAt] of the
    share record is not touched. *)
Definition mergePermissions (old : Permissions) (p : Arg.t) : Permissions :=
  {| canViewEvents := default (canViewEvents old) (Arg.canViewEvents p);
     canViewAvailability :=
       default (canViewAvailability old) (Arg.canViewAvailability p);
     canViewStatus := default (canViewStatus old) (Arg.canViewStatus p);
     canViewDetails := default (canViewDetails old) (Arg.canViewDetails p) |}.

Definition updateShareLinkPermissions (shareId : string) (p : Arg.t)
    (s : Service) : bool * Service :=
  match shareLinks s !! shareId with
  | Some sl =>
      (true,
       saveShareLinks
         (set_shareLinks
            (<[shareId := set_permissions (mergePermissions (permissions sl) p) sl]>
               (shareLinks s)) s))
  | None =>
      match inheritedValue (inherited s) shareId with
      | (Member _ | ProtoPermissions _) as i =>
          (true,
           saveShareLinks
             (set_inherited (writePermissions i p (inherited s)) s))
      | ProtoIsActive | Absent => (false, s)
      end
  end.

(** [if (shareLink && shareLink.isActive)]. For a key that is not the
    registry's own, [shareLink] is [undefined], the inherited [false], or
    an inherited object, whose [isActive] is missing or the [false] that
    [revokeShareLink] wrote on it or on [Object.prototype]: the test fails
    in each case. *)
Definition accessSharedSchedule (now : Z) (shareId : string) (s : Service)
  : option ShareData * Service :=
  match shareLinks s !! shareId with
  | Some shareLink =>
      if isActive shareLink then
        let shareLink' :=
          set_lastAccessed (Some now)
            (set_accessCount (accessCount shareLink + 1) shareLink) in
        (Some shareLink',
         saveShareLinks
           (set_shareLinks (<[shareId := shareLink']> (shareLinks s)) s))
      else (None, s)
  | None => (None, s)
  end.

(** [users[userId] || null], on the own keys of the users item: the owner
    ids looked up are the user ids links are issued under, and the
    members the item inherits are not user records. *)
Definition getUserData (users : gmap string User.t) (uid : string)
  : option User.t :=
  users !! uid.

(** [shareLink.expiresAt && new Date() > new Date(shareLink.expiresAt)]: a
    comparison with the invalid date is false. *)
Definition isExpired (now : Z) (sl : ShareData) : bool :=
  match expiresAt sl with
  | Some (DateAt t) => (t <? now)%Z
  | Some InvalidDate => false
  | None => false
  end.

Definition sharedData (shareLink : ShareData) (userData : User.t) : View.t :=
  {| View.user :=
       {| View.name := User.fullName userData;
          View.email :=
            if canViewDetails (permissions shareLink)
            then Some (User.email userData) else None |};
     View.events :=
       if canViewEvents (permissions shareLink)
       then default [] (User.events userData) else [];
     View.availability :=
       if canViewAvailability (permissions shareLink)
       then User.availability userData else None;
     View.currentStatus :=
       if canViewStatus (permissions shareLink)
       then User.currentStatus userData else None;
     View.shareInfo :=
       {| View.createdAt := createdAt shareLink;
          View.accessCount := accessCount shareLink;
          View.permissions := permissions shareLink |} |}.

(** [getSharedScheduleData]: [tAccess] is the clock read inside
    [accessSharedSchedule], [tCheck] the one read by the expiry test. *)
Definition getSharedScheduleData (users : gmap string User.t)
    (tAccess tCheck : Z) (shareId : string) (s : Service)
  : option View.t * Service :=
  match accessSharedSchedule tAccess shareId s with
  | (None, s') => (None, s')
  | (Some shareLink, s') =>
      if isExpired tCheck shareLink then (None, s')
      else
        match getUserData users (userId shareLink) with
        | None => (None, s')
        | Some userData => (Some (sharedData shareLink userData), s')
        end
  end.

(** [clearAllSharingData]: [removeItem] and an empty registry. *)
Definition clearAllSharingData (s : Service) : Service :=
  mkService ∅ None (storageWritable s) (inherited s).

(** [getSharingStats]. *)
Record Stats : Type := mkStats {
  totalLinks : nat;
  activeLinks : nat;
  totalViews : Z;
  links : list ShareData
}.

Definition getSharingStats (uid : string) (s : Service) : Stats :=
  let userLinks := getUserShareLinks uid s in
  {| totalLinks := length userLinks;
     activeLinks := length (filter (fun l => isActive l = true) userLinks);
     totalViews := foldl (fun sum l => (sum + accessCount l)%Z) 0%Z userLinks;
     links := userLinks |}.

(** ** Sequences of calls

    A call of one of the seven registry operations, with what it reads from
    its environment, and the state a sequence of calls leaves. *)
Inductive Op : Type :=
  | OpIssue (origin : string) (rnd : nat -> nat) (now : Z) (uid : string)
      (p : Arg.t)
  | OpGet (shareId : string)
  | OpListByOwner (uid : string)
  | OpRevoke (shareId : string)
  | OpUpdatePermissions (shareId : string) (p : Arg.t)
  | OpAccess (now : Z) (shareId : string)
  | OpGetProjection (users : gmap string User.t) (tAccess tCheck : Z)
      (shareId : string).

Definition exec (op : Op) (s : Service) : Service :=
  match op with
  | OpIssue origin rnd now uid p => (generateShareLink origin rnd now uid p s).2
  | OpGet _ => s
  | OpListByOwner _ => s
  | OpRevoke shareId => (revokeShareLink shareId s).2
  | OpUpdatePermissions shareId p => (updateShareLinkPermissions shareId p s).2
  | OpAccess now shareId => (accessSharedSchedule now shareId s).2
  | OpGetProjection users tAccess tCheck shareId =>
      (getSharedScheduleData users tAccess tCheck shareId s).2
  end.

Definition run (ops : list Op) (s : Service) : Service :=
  foldl (fun st op => exec op st) s ops.

(** The id a call stores a new record under, if it is an issue. *)
Definition issuedId (op : Op) : option string :=
  match op with
  | OpIssue _ rnd _ _ _ => Some (generateShareId rnd)
  | _ => None
  end.

(** Every record of the registry sits under its own id. *)
Definition keyed_by_id (s : Service) : Prop :=
  map_Forall (fun k sl => id sl = k) (shareLinks s).

(** The service of a browser with nothing stored. *)
Definition fresh : Service := constructor None true.

(** ** A running example: one link issued with all draws zero *)

Definition zeros : nat -> nat := fun _ => 0.
Definition ones : nat -> nat := fun _ => 1.
Definition tokA : string := "AAAAAAAAAAAAAAAA".

Definition alice : User.t :=
  {| User.fullName := "Alice";
     User.email := "alice@example.com";
     User.events :=
       Some [mkEvent "event-1" "Team Meeting" "09:00" "10:00";
             mkEvent "event-2" "Client Call" "11:00" "11:30";
             mkEvent "event-3" "Review" "14:00" "15:00"];
     User.availability := Some (mkAvailability "UTC" "09:00" "17:00");
     User.currentStatus := Some (mkStatus "Available" "ok" "green") |}.

Definition directory : gmap string User.t := {[ "U1" := alice ]}.

(** Issued at time 5000 with an expiry one second earlier. *)
Definition expiredArg : Arg.t :=
  Arg.mk (Some true) (Some true) (Some true) (Some false) (Some (DateAt 4000)).

Definition withExpired : Service :=
  (generateShareLink "https://app" zeros 5000 "U1" expiredArg fresh).2.

Definition plainArg : Arg.t :=
  Arg.mk (Some true) (Some true) (Some true) (Some false) None.

Definition withPlain : Service :=
  (generateShareLink "https://app" zeros 5000 "U1" plainArg fresh).2.

(** ** Further definitions: the component [ScheduleSharing] and notions
    used to state properties of the service *)

(** [getPermissionLabel] of the component [ScheduleSharing], which labels
    each link of the owner's list: the names of the granted permissions,
    pushed in this order and joined by a comma and a space. *)
Definition getPermissionLabel (p : Permissions) : string :=
  let labels := [] in
  let labels := if canViewEvents p then labels ++ ["Events"] else labels in
  let labels :=
    if canViewAvailability p then labels ++ ["Availability"] else labels in
  let labels := if canViewStatus p then labels ++ ["Status"] else labels in
  let labels := if canViewDetails p then labels ++ ["Details"] else labels in
  String.concat ", " labels.

(** The characters of [chars], and the draws [Math.random] can give:
    [Math.floor(Math.random() * chars.length)] is below [chars.length]. *)
Definition alphabet : list Ascii.ascii := String.list_ascii_of_string chars.

Definition in_range (rnd : nat -> nat) : Prop :=
  forall i, i < 16 -> rnd i < String.length chars.

(** The ids a sequence of calls issues. *)
Definition issuedIds (ops : list Op) : gset string :=
  list_to_set (omap issuedId ops).

(** The sum the [reduce] of [getSharingStats] computes, by recursion on the
    list. *)
Definition views (l : list ShareData) : Z :=
  foldr (fun sl acc => (accessCount sl + acc)%Z) 0%Z l.

(** The stored item holds the registry and [setItem] goes through. *)
Definition synced (s : Service) : Prop :=
  storageWritable s = true /\
  loadShareLinks (storedShareLinks s) = shareLinks s.

(** ** Basic facts about the state *)

Section Saving.
Implicit Types (s : Service) (m : gmap string ShareData).

Lemma shareLinks_saveShareLinks s :
  shareLinks (saveShareLinks s) = shareLinks s.
Proof. unfold saveShareLinks. by destruct (storageWritable s). Qed.

Lemma shareLinks_set_shareLinks m s : shareLinks (set_shareLinks m s) = m.
Proof. done. Qed.

Lemma shareLinks_saved m s :
  shareLinks (saveShareLinks (set_shareLinks m s)) = m.
Proof. by rewrite shareLinks_saveShareLinks. Qed.

(** Saving the registry a second time changes nothing. *)
Lemma saveShareLinks_again m s :
  saveShareLinks (set_shareLinks m (saveShareLinks (set_shareLinks m s)))
  = saveShareLinks (set_shareLinks m s).
Proof.
  unfold saveShareLinks, set_shareLinks; simpl.
  by destruct (storageWritable s).
Qed.

(** When [setItem] goes through, the mirror is the registry. *)
Lemma stored_saved m s :
  storageWritable s = true ->
  storedShareLinks (saveShareLinks (set_shareLinks m s)) = Some m.
Proof. unfold saveShareLinks; simpl. by intros ->. Qed.
End Saving.

Example generateShareId_zeros : generateShareId zeros = tokA.
Proof. reflexivity. Qed.

(** ** Access and expiry *)

Lemma accessSharedSchedule_Some now shareId s sl :
  shareLinks s !! shareId = Some sl ->
  isActive sl = true ->
  accessSharedSchedule now shareId s
  = (Some (set_lastAccessed (Some now) (set_accessCount (accessCount sl + 1) sl)),
     saveShareLinks
       (set_shareLinks
          (<[shareId := set_lastAccessed (Some now)
                          (set_accessCount (accessCount sl + 1) sl)]>
             (shareLinks s)) s)).
Proof. unfold accessSharedSchedule. by intros -> ->. Qed.

Lemma accessSharedSchedule_inactive now shareId s sl :
  shareLinks s !! shareId = Some sl ->
  isActive sl = false ->
  accessSharedSchedule now shareId s = (None, s).
Proof. unfold accessSharedSchedule. by intros -> ->. Qed.

(** C1, as stated, fails: on a link that is active and whose [expiresAt]
    (4000) is before the clock (6000), [accessSharedSchedule] returns the
    record, not [null]. *)
Lemma accessSharedSchedule_expired_returns_link :
  exists sl,
    shareLinks withExpired !! tokA = Some sl /\
    isActive sl = true /\
    isExpired 6000 sl = true /\
    (accessSharedSchedule 6000 tokA withExpired).1 <> None.
Proof.
  eexists. split; [vm_compute; reflexivity|].
  split; [reflexivity|]. split; [reflexivity|].
  vm_compute. discriminate.
Qed.

(** C1, amended: [accessSharedSchedule] returns [null] exactly when the id
    is not in the registry or the record's [isActive] is false, whatever
    [expiresAt] is; the expiry is tested by [getSharedScheduleData], which
    returns [null] when the id is missing, the record inactive, or its
    [expiresAt] before the clock, also with [isActive] true. *)
Theorem accessSharedSchedule_null_iff now tCheck users shareId s :
  ((accessSharedSchedule now shareId s).1 = None <->
     shareLinks s !! shareId = None \/
     exists sl, shareLinks s !! shareId = Some sl /\ isActive sl = false) /\
  ((shareLinks s !! shareId = None \/
    exists sl, shareLinks s !! shareId = Some sl /\
      (isActive sl = false \/ isExpired tCheck sl = true)) ->
   (getSharedScheduleData users now tCheck shareId s).1 = None).
Proof.
  split.
  - unfold accessSharedSchedule.
    destruct (shareLinks s !! shareId) as [sl|] eqn:Hl.
    + destruct (isActive sl) eqn:Ha; simpl; split.
      * discriminate.
      * intros [?|(sl' & ? & ?)]; simplify_eq. congruence.
      * intros _. right. by exists sl.
      * done.
    + simpl. split; [by left|done].
  - unfold getSharedScheduleData, accessSharedSchedule.
    intros [Hl|(sl & Hl & H)]; rewrite Hl; [done|].
    destruct (isActive sl) eqn:Ha; [|done].
    destruct H as [?|He]; [done|].
    assert (isExpired tCheck
              (set_lastAccessed (Some now)
                 (set_accessCount (accessCount sl + 1) sl)) = true) as ->
      by exact He.
    done.
Qed.

Lemma accessSharedSchedule_null_iff_witness :
  (getSharedScheduleData directory 6000 6001 tokA withExpired).1 = None.
Proof.
  apply (accessSharedSchedule_null_iff 6000 6001 directory tokA withExpired).
  right. eexists. split; [vm_compute; reflexivity|].
  right. reflexivity.
Defined.

(** ** The access counter and [getSharedScheduleData] *)

(** A call that returns a view counts it once. *)
Lemma getSharedScheduleData_Some users tAccess tCheck shareId s v s' :
  getSharedScheduleData users tAccess tCheck shareId s = (Some v, s') ->
  exists sl sl',
    shareLinks s !! shareId = Some sl /\
    shareLinks s' !! shareId = Some sl' /\
    accessCount sl' = (accessCount sl + 1)%Z /\
    View.accessCount (View.shareInfo v) = (accessCount sl + 1)%Z.
Proof.
  unfold getSharedScheduleData, accessSharedSchedule.
  destruct (shareLinks s !! shareId) as [sl|] eqn:Hl; [|done].
  destruct (isActive sl); [|done].
  destruct (isExpired _ _); [done|].
  destruct (getUserData _ _) as [u|]; [|done].
  intros [= <- <-]. eexists sl, _. split; [done|].
  rewrite shareLinks_saved, lookup_insert_eq. done.
Qed.

(** A call on an id that is missing or inactive leaves the state as it
    was. *)
Lemma getSharedScheduleData_not_active users tAccess tCheck shareId s :
  (shareLinks s !! shareId = None \/
   exists sl, shareLinks s !! shareId = Some sl /\ isActive sl = false) ->
  getSharedScheduleData users tAccess tCheck shareId s = (None, s).
Proof.
  unfold getSharedScheduleData, accessSharedSchedule.
  by intros [->|(sl & -> & ->)].
Qed.


(** C2: where the code leaves the claim. The link of [withExpired] is
    active, never accessed, and expired; [getSharedScheduleData] returns
    [null] on it and nevertheless moves [accessCount] from 0 to 1 and sets
    [lastAccessed]. The same happens on the unexpired link of [withPlain]
    when the owner has no user record. *)
Theorem getSharedScheduleData_null_but_counted :
  (accessCount <$> shareLinks withExpired !! tokA = Some 0%Z /\
   lastAccessed <$> shareLinks withExpired !! tokA = Some None /\
   (getSharedScheduleData directory 6000 6001 tokA withExpired).1 = None /\
   accessCount <$>
     shareLinks (getSharedScheduleData directory 6000 6001 tokA withExpired).2
       !! tokA = Some 1%Z /\
   lastAccessed <$>
     shareLinks (getSharedScheduleData directory 6000 6001 tokA withExpired).2
       !! tokA = Some (Some 6000%Z)) /\
  (accessCount <$> shareLinks withPlain !! tokA = Some 0%Z /\
   (getSharedScheduleData ∅ 6000 6001 tokA withPlain).1 = None /\
   accessCount <$>
     shareLinks (getSharedScheduleData ∅ 6000 6001 tokA withPlain).2
       !! tokA = Some 1%Z).
Proof. vm_compute. repeat split. Qed.

(** ** Issuing *)

(** C3: the record [generateShareLink] returns is active, not yet accessed,
    carries the default permissions (the three view permissions false only
    for an explicit [false], [canViewDetails] true only for an explicit
    [true]) and is in the registry under its id; and with a storage that
    takes the write, the stored item is the registry, the record under its
    id in it. *)
Theorem generateShareLink_defaults origin rnd now uid p s :
  let r := generateShareLink origin rnd now uid p s in
  isActive r.1 = true /\
  accessCount r.1 = 0%Z /\
  lastAccessed r.1 = None /\
  (canViewEvents (permissions r.1) = false <->
     Arg.canViewEvents p = Some false) /\
  (canViewAvailability (permissions r.1) = false <->
     Arg.canViewAvailability p = Some false) /\
  (canViewStatus (permissions r.1) = false <->
     Arg.canViewStatus p = Some false) /\
  (canViewDetails (permissions r.1) = true <->
     Arg.canViewDetails p = Some true) /\
  userId r.1 = uid /\
  shareLinks r.2 !! id r.1 = Some r.1 /\
  (storageWritable s = true ->
   storedShareLinks r.2 = Some (shareLinks r.2) /\
   storedShareLinks r.2 ≫= (.!! id r.1) = Some r.1).
Proof.
  simpl. unfold generateShareLink; simpl.
  rewrite shareLinks_saved, lookup_insert_eq.
  assert (storageWritable s = true ->
          forall m : gmap string ShareData,
            storedShareLinks (saveShareLinks (set_shareLinks m s)) = Some m)
    as Hst by (intros Hw m; by apply stored_saved).
  split_and!; try done;
    try (destruct p as [[[]|] [[]|] [[]|] [[]|] e]; simpl; naive_solver).
  intros Hw. rewrite (Hst Hw). split; [done|].
  simpl. apply lookup_insert_eq.
Qed.

Lemma generateShareLink_defaults_witness :
  let r := generateShareLink "https://app" zeros 5000 "U1" plainArg fresh in
  storedShareLinks fresh = None /\
  storedShareLinks r.2 = Some (shareLinks r.2) /\
  storedShareLinks r.2 ≫= (.!! tokA) = Some r.1.
Proof.
  intros r. split; [reflexivity|].
  destruct (generateShareLink_defaults "https://app" zeros 5000 "U1" plainArg
              fresh) as (_ & _ & _ & _ & _ & _ & _ & _ & _ & Hst).
  exact (Hst eq_refl).
Defined.

(** ** Revoking *)

Lemma set_isActive_false_twice sl :
  set_isActive false (set_isActive false sl) = set_isActive false sl.
Proof. done. Qed.

Lemma revokeShareLink_found shareId s sl :
  shareLinks s !! shareId = Some sl ->
  revokeShareLink shareId s
  = (true,
     saveShareLinks
       (set_shareLinks (<[shareId := set_isActive false sl]> (shareLinks s)) s)).
Proof. unfold revokeShareLink. by intros ->. Qed.

Lemma shareLinks_saved_inherited r s :
  shareLinks (saveShareLinks (set_inherited r s)) = shareLinks s.
Proof. by rewrite shareLinks_saveShareLinks. Qed.

Lemma revokeShareLink_not_own k s :
  shareLinks s !! k = None ->
  shareLinks (revokeShareLink k s).2 = shareLinks s.
Proof.
  intros Hl. unfold revokeShareLink. rewrite Hl.
  destruct (inheritedValue (inherited s) k); cbn [snd];
    rewrite ?shareLinks_saved_inherited; done.
Qed.

(** X22: what [revokeShareLink] does, by what the key resolves to. On a record
    of the registry it returns [true] and leaves the record with [isActive]
    false and its other fields, and all other records, as they were; a
    second call returns [true] again and changes nothing more. On a key
    that resolves to nothing, or to the inherited [false], it returns
    [false] and the state is the one before. On a key that resolves to an
    inherited function or object it returns [true] as well, with the
    registry as it was. *)
Theorem revokeShareLink_idempotent shareId s :
  match getShareLink shareId s with
  | Own sl =>
      let r1 := revokeShareLink shareId s in
      let r2 := revokeShareLink shareId r1.2 in
      r1.1 = true /\
      shareLinks r1.2 = <[shareId := set_isActive false sl]> (shareLinks s) /\
      id (set_isActive false sl) = id sl /\
      userId (set_isActive false sl) = userId sl /\
      link (set_isActive false sl) = link sl /\
      permissions (set_isActive false sl) = permissions sl /\
      createdAt (set_isActive false sl) = createdAt sl /\
      expiresAt (set_isActive false sl) = expiresAt sl /\
      accessCount (set_isActive false sl) = accessCount sl /\
      lastAccessed (set_isActive false sl) = lastAccessed sl /\
      isActive (set_isActive false sl) = false /\
      r2.1 = true /\
      r2.2 = r1.2
  | NotOwn (Member _) | NotOwn (ProtoPermissions _) =>
      (revokeShareLink shareId s).1 = true /\
      shareLinks (revokeShareLink shareId s).2 = shareLinks s
  | NotOwn ProtoIsActive | NotOwn Absent =>
      revokeShareLink shareId s = (false, s)
  end.
Proof.
  unfold getShareLink.
  destruct (shareLinks s !! shareId) as [sl|] eqn:Hl.
  - cbv zeta. rewrite (revokeShareLink_found _ _ _ Hl). cbn [fst snd].
    rewrite shareLinks_saved.
    repeat (split; [done|]).
    erewrite revokeShareLink_found
      by (rewrite shareLinks_saved; apply lookup_insert_eq).
    cbn [fst snd]. split; [done|].
    rewrite shareLinks_saved, insert_insert_eq, set_isActive_false_twice.
    apply saveShareLinks_again.
  - unfold revokeShareLink. rewrite Hl.
    destruct (inheritedValue (inherited s) shareId); cbn [fst snd];
      rewrite ?shareLinks_saved_inherited; done.
Qed.

(** C4: where the code leaves the claim. The key [constructor] is not in
    the registry of a new browser, yet [this.shareLinks[shareId]] finds the
    inherited function [Object] and is true: [revokeShareLink] returns
    [true], writes [isActive = false] on that function and saves, so that
    the stored item, which was not there, now is. The claim has [false]
    and no change for an id that is not in the registry. *)
Theorem revokeShareLink_inherited_key :
  let r := revokeShareLink "constructor" fresh in
  shareLinks fresh !! "constructor" = None /\
  r.1 = true /\
  inherited fresh !! "constructor" = None /\
  inherited r.2 !! "constructor" = Some (mkMemberProps true None) /\
  storedShareLinks fresh = None /\
  storedShareLinks r.2 = Some ∅.
Proof. cbv zeta. split_and!; reflexivity. Qed.

(** ** Updating permissions *)

Lemma updateShareLinkPermissions_found k p s sl :
  shareLinks s !! k = Some sl ->
  updateShareLinkPermissions k p s
  = (true,
     saveShareLinks
       (set_shareLinks
          (<[k := set_permissions (mergePermissions (permissions sl) p) sl]>
             (shareLinks s)) s)).
Proof. unfold updateShareLinkPermissions. by intros ->. Qed.

Lemma updateShareLinkPermissions_not_own k p s :
  shareLinks s !! k = None ->
  shareLinks (updateShareLinkPermissions k p s).2 = shareLinks s.
Proof.
  intros Hl. unfold updateShareLinkPermissions. rewrite Hl.
  destruct (inheritedValue (inherited s) k); cbn [snd];
    rewrite ?shareLinks_saved_inherited; done.
Qed.

(** X23: what [updateShareLinkPermissions] does, by what the key resolves
    to. On a record of the registry it returns [true]; each permission of the
    record becomes the one given, or stays when none is given; the other
    fields of the record and all other records stay. On a key that
    resolves to nothing, or to the inherited [false], it returns [false]
    and the state, registry included, is the one before. On a key that
    resolves to an inherited function or object it returns [true] as well;
    the registry is as it was and no record is created. *)
Theorem updateShareLinkPermissions_merge shareId p s :
  match getShareLink shareId s with
  | Own sl =>
      let r := updateShareLinkPermissions shareId p s in
      exists sl',
        r.1 = true /\
        shareLinks r.2 = <[shareId := sl']> (shareLinks s) /\
        canViewEvents (permissions sl')
          = default (canViewEvents (permissions sl)) (Arg.canViewEvents p) /\
        canViewAvailability (permissions sl')
          = default (canViewAvailability (permissions sl))
              (Arg.canViewAvailability p) /\
        canViewStatus (permissions sl')
          = default (canViewStatus (permissions sl)) (Arg.canViewStatus p) /\
        canViewDetails (permissions sl')
          = default (canViewDetails (permissions sl)) (Arg.canViewDetails p) /\
        id sl' = id sl /\
        userId sl' = userId sl /\
        link sl' = link sl /\
        createdAt sl' = createdAt sl /\
        expiresAt sl' = expiresAt sl /\
        isActive sl' = isActive sl /\
        accessCount sl' = accessCount sl /\
        lastAccessed sl' = lastAccessed sl
  | NotOwn (Member _) | NotOwn (ProtoPermissions _) =>
      (updateShareLinkPermissions shareId p s).1 = true /\
      shareLinks (updateShareLinkPermissions shareId p s).2 = shareLinks s
  | NotOwn ProtoIsActive | NotOwn Absent =>
      updateShareLinkPermissions shareId p s = (false, s)
  end.
Proof.
  unfold getShareLink.
  destruct (shareLinks s !! shareId) as [sl|] eqn:Hl.
  - cbv zeta. rewrite (updateShareLinkPermissions_found _ _ _ _ Hl).
    cbn [fst snd]. eexists. split; [done|].
    rewrite shareLinks_saved. split; [reflexivity|]. done.
  - unfold updateShareLinkPermissions. rewrite Hl.
    destruct (inheritedValue (inherited s) shareId); cbn [fst snd];
      rewrite ?shareLinks_saved_inherited; done.
Qed.

(** C5: where the code leaves the claim. On the key [constructor], which
    is not in the registry of a new browser, the test
    [this.shareLinks[shareId]] finds the inherited function [Object]:
    [updateShareLinkPermissions] returns [true], writes the given keys as
    the property [permissions] of that function and saves. The claim has
    [false] for an id that is not in the registry; the registry itself
    stays empty, as the claim says. *)
Theorem updateShareLinkPermissions_inherited_key :
  let p := Arg.mk (Some false) None None None None in
  let r := updateShareLinkPermissions "constructor" p fresh in
  shareLinks fresh !! "constructor" = None /\
  r.1 = true /\
  inherited r.2 !! "constructor"
  = Some (mkMemberProps false (Some (mkPObj p false None))) /\
  shareLinks r.2 = ∅ /\
  storedShareLinks fresh = None /\
  storedShareLinks r.2 = Some ∅.
Proof. cbv zeta. split_and!; reflexivity. Qed.

(** ** The view *)






(** With [canViewEvents] false the same owner's three events are not in the
    view. *)
Example sharedData_events_hidden :
  let s := (generateShareLink "https://app" zeros 5000 "U1"
              (Arg.mk (Some false) None None None None) fresh).2 in
  View.events <$> (getSharedScheduleData directory 6000 6001 tokA s).1
  = Some [].
Proof. vm_compute. reflexivity. Qed.

(** ** The frame of a successful access *)

(** C10: an access that returns a record has found it in the registry; the
    record returned, which is the one now stored, differs from the one
    found in [accessCount], one more, and [lastAccessed], the clock; every
    other field of it and every other record of the registry is as
    before. *)
Theorem accessSharedSchedule_frame now shareId s sl' s' :
  accessSharedSchedule now shareId s = (Some sl', s') ->
  exists sl,
    shareLinks s !! shareId = Some sl /\
    shareLinks s' !! shareId = Some sl' /\
    accessCount sl' = (accessCount sl + 1)%Z /\
    lastAccessed sl' = Some now /\
    id sl' = id sl /\
    userId sl' = userId sl /\
    link sl' = link sl /\
    permissions sl' = permissions sl /\
    createdAt sl' = createdAt sl /\
    expiresAt sl' = expiresAt sl /\
    isActive sl' = isActive sl /\
    (forall k, k <> shareId -> shareLinks s' !! k = shareLinks s !! k) /\
    shareLinks s' = <[shareId := sl']> (shareLinks s).
Proof.
  unfold accessSharedSchedule.
  destruct (shareLinks s !! shareId) as [sl|] eqn:Hl; [|done].
  destruct (isActive sl) eqn:Ha; [|done].
  intros [= <- <-]. exists sl.
  rewrite shareLinks_saved, lookup_insert_eq.
  repeat (split; [done|]).
  split; [|done].
  intros k Hk. by rewrite lookup_insert_ne.
Qed.

Lemma accessSharedSchedule_frame_witness :
  exists sl',
    (accessSharedSchedule 6000 tokA withPlain).1 = Some sl' /\
    accessCount sl' = 1%Z /\
    lastAccessed sl' = Some 6000%Z /\
    isActive sl' = true.
Proof.
  destruct (accessSharedSchedule 6000 tokA withPlain)
    as [[sl'|] s'] eqn:Ha; [|vm_compute in Ha; discriminate].
  exists sl'. split; [done|].
  destruct (accessSharedSchedule_frame 6000 tokA withPlain sl' s' Ha)
    as (sl & Hl & _ & Hc & Hd & _ & _ & _ & _ & _ & _ & Hact & _).
  vm_compute in Hl. injection Hl as <-.
  rewrite Hc, Hd, Hact. done.
Defined.

(** ** Sequences of calls: ids and revocation *)

Lemma run_cons op ops s : run (op :: ops) s = run ops (exec op s).
Proof. done. Qed.

(** The state [getSharedScheduleData] leaves is the one its call of
    [accessSharedSchedule] leaves. *)
Lemma getSharedScheduleData_state users tAccess tCheck shareId s :
  (getSharedScheduleData users tAccess tCheck shareId s).2
  = (accessSharedSchedule tAccess shareId s).2.
Proof.
  unfold getSharedScheduleData.
  destruct (accessSharedSchedule tAccess shareId s) as [[sl|] s']; [|done].
  destruct (isExpired _ _); [done|]. by destruct (getUserData _ _).
Qed.

(** What one call does to the registry: nothing, or one record stored
    under one key. *)
Lemma exec_shareLinks op s :
  shareLinks (exec op s) = shareLinks s \/
  exists k sl', shareLinks (exec op s) = <[k := sl']> (shareLinks s) /\
    ((issuedId op = Some k /\ id sl' = k) \/
     (exists sl, shareLinks s !! k = Some sl /\
        id sl' = id sl /\
        (isActive sl = false ->
           isActive sl' = false /\ accessCount sl' = accessCount sl /\
           lastAccessed sl' = lastAccessed sl))).
Proof.
  destruct op as [origin rnd now uid p| | |k|k p|now k|users tA tC k]; simpl;
    try (by left).
  - right. eexists _, _. unfold generateShareLink; simpl.
    rewrite shareLinks_saved. split; [done|]. by left.
  - destruct (shareLinks s !! k) as [sl|] eqn:Hl;
      [|left; by apply revokeShareLink_not_own].
    rewrite (revokeShareLink_found _ _ _ Hl).
    right. exists k, (set_isActive false sl). simpl.
    rewrite shareLinks_saved. split; [done|]. right. by exists sl.
  - destruct (shareLinks s !! k) as [sl|] eqn:Hl;
      [|left; by apply updateShareLinkPermissions_not_own].
    rewrite (updateShareLinkPermissions_found _ _ _ _ Hl).
    right. eexists k, _. simpl.
    rewrite shareLinks_saved. split; [done|]. right. by exists sl.
  - unfold accessSharedSchedule.
    destruct (shareLinks s !! k) as [sl|] eqn:Hl; [|by left].
    destruct (isActive sl) eqn:Ha; [|by left].
    right. eexists k, _. simpl.
    rewrite shareLinks_saved. split; [done|]. right. exists sl.
    split; [done|]. split; [done|]. congruence.
  - rewrite getSharedScheduleData_state. unfold accessSharedSchedule.
    destruct (shareLinks s !! k) as [sl|] eqn:Hl; [|by left].
    destruct (isActive sl) eqn:Ha; [|by left].
    right. eexists k, _. simpl.
    rewrite shareLinks_saved. split; [done|]. right. exists sl.
    split; [done|]. split; [done|]. congruence.
Qed.

Lemma keyed_by_id_exec op s : keyed_by_id s -> keyed_by_id (exec op s).
Proof.
  unfold keyed_by_id. intros Hk.
  destruct (exec_shareLinks op s) as [->|(k & sl' & -> & H)]; [done|].
  apply map_Forall_insert_2; [|done].
  destruct H as [[_ ?]|(sl & Hl & Hid & _)]; [done|].
  rewrite Hid. by apply (Hk k sl).
Qed.

Lemma keyed_by_id_run ops s : keyed_by_id s -> keyed_by_id (run ops s).
Proof.
  revert s. induction ops as [|op ops IH]; intros s Hk; [done|].
  rewrite run_cons. by apply IH, keyed_by_id_exec.
Qed.

Lemma keyed_by_id_fresh : keyed_by_id fresh.
Proof. apply map_Forall_empty. Qed.

(** C8, as stated, fails: there is no test for a collision and no second
    draw. When [Math.random] gives the same sixteen draws to two calls of
    [generateShareLink], the second record takes the place of the first,
    which is then under no key of the registry. *)
Lemma generateShareLink_collision_overwrites :
  let r1 := generateShareLink "https://app" zeros 5000 "U1" plainArg fresh in
  let r2 := generateShareLink "https://app" zeros 7000 "U2" plainArg r1.2 in
  shareLinks r1.2 !! tokA = Some r1.1 /\
  id r2.1 = id r1.1 /\
  r2.1 <> r1.1 /\
  shareLinks r2.2 !! tokA = Some r2.1 /\
  forall k, shareLinks r2.2 !! k <> Some r1.1.
Proof.
  cbv zeta. split; [vm_compute; reflexivity|]. split; [reflexivity|].
  split; [vm_compute; discriminate|]. split; [vm_compute; reflexivity|].
  intros k. unfold generateShareLink; cbn [fst snd].
  rewrite !shareLinks_saved, insert_insert_eq.
  destruct (decide (k = generateShareId zeros)) as [->|Hk].
  - rewrite lookup_insert_eq. discriminate.
  - rewrite lookup_insert_ne by done.
    change (shareLinks fresh) with (∅ : gmap string ShareData).
    by rewrite lookup_empty.
Qed.

(** C8, amended: in every state a sequence of calls reaches from a registry
    whose records sit under their own ids (the empty one of a new browser
    among them), every record sits under its own id, so that two records
    under different keys have different ids; and a call of
    [generateShareLink] whose generated id is not yet a key of the registry
    leaves every record that was there in its place. *)
Theorem ids_unique_in_reachable_states s0 ops :
  keyed_by_id s0 ->
  let s := run ops s0 in
  (forall k sl, shareLinks s !! k = Some sl -> id sl = k) /\
  (forall k1 k2 sl1 sl2,
     shareLinks s !! k1 = Some sl1 -> shareLinks s !! k2 = Some sl2 ->
     k1 <> k2 -> id sl1 <> id sl2) /\
  (forall origin rnd now uid p k sl,
     shareLinks s !! generateShareId rnd = None ->
     shareLinks s !! k = Some sl ->
     shareLinks (generateShareLink origin rnd now uid p s).2 !! k = Some sl).
Proof.
  intros H0 s.
  assert (keyed_by_id s) as Hk by by apply keyed_by_id_run.
  split; [exact Hk|]. split.
  - intros k1 k2 sl1 sl2 H1 H2 Hne.
    rewrite (Hk _ _ H1), (Hk _ _ H2). done.
  - intros origin rnd now uid p k sl Hfresh Hl.
    unfold generateShareLink; simpl. rewrite shareLinks_saved.
    rewrite lookup_insert_ne; [done|]. congruence.
Qed.

Lemma ids_unique_in_reachable_states_witness :
  let s := run [OpIssue "https://app" zeros 5000 "U1" plainArg;
                OpAccess 6000 tokA] fresh in
  exists sl,
    shareLinks s !! tokA = Some sl /\
    id sl = tokA /\
    shareLinks (generateShareLink "https://app" ones 7000 "U2" plainArg s).2
      !! tokA = Some sl.
Proof.
  intros s.
  destruct (shareLinks s !! tokA) as [sl|] eqn:Hl;
    [|vm_compute in Hl; discriminate].
  exists sl. split; [done|].
  destruct (ids_unique_in_reachable_states fresh
              [OpIssue "https://app" zeros 5000 "U1" plainArg;
               OpAccess 6000 tokA] keyed_by_id_fresh) as (H1 & _ & H3).
  split; [by apply H1|].
  apply H3; [vm_compute; reflexivity|exact Hl].
Defined.

(** A record that is revoked stays so, with its counter and its last
    access, through a call that does not issue a record under its id. *)
Lemma revoked_exec op s shareId sl :
  shareLinks s !! shareId = Some sl ->
  isActive sl = false ->
  issuedId op <> Some shareId ->
  exists sl',
    shareLinks (exec op s) !! shareId = Some sl' /\
    isActive sl' = false /\
    accessCount sl' = accessCount sl /\
    lastAccessed sl' = lastAccessed sl.
Proof.
  intros Hl Ha Hop.
  destruct (exec_shareLinks op s) as [->|(k & sl' & -> & H)];
    [by exists sl|].
  destruct (decide (k = shareId)) as [->|Hk].
  - rewrite lookup_insert_eq. exists sl'. split; [done|].
    destruct H as [[? _]|(sl0 & Hl0 & _ & H)]; [done|].
    rewrite Hl in Hl0. injection Hl0 as <-. by apply H.
  - rewrite lookup_insert_ne by done. by exists sl.
Qed.

(** C9, as stated, fails, because an issue can draw the id of a revoked
    record again: after issue, revoke and an issue with the same draws, the
    id resolves to an active record and an access on it succeeds. *)
Lemma revoked_id_issued_again :
  let s1 := run [OpIssue "https://app" zeros 5000 "U1" plainArg;
                 OpRevoke tokA] fresh in
  let s2 := exec (OpIssue "https://app" zeros 7000 "U1" plainArg) s1 in
  isActive <$> shareLinks s1 !! tokA = Some false /\
  isActive <$> shareLinks s2 !! tokA = Some true /\
  (accessSharedSchedule 8000 tokA s2).1 <> None.
Proof.
  cbv zeta. split; [vm_compute; reflexivity|].
  split; [vm_compute; reflexivity|]. vm_compute. discriminate.
Qed.

(** C9, amended: once a record has [isActive] false, through every sequence
    of calls of the seven operations in which no issue generates its id
    again, the record stays in the registry with [isActive] false and with
    its [accessCount] and [lastAccessed]; an access on it and a projection
    of it return [null] and leave the state as it is. *)
Theorem revocation_is_terminal ops s shareId sl :
  shareLinks s !! shareId = Some sl ->
  isActive sl = false ->
  Forall (fun op => issuedId op <> Some shareId) ops ->
  exists sl',
    shareLinks (run ops s) !! shareId = Some sl' /\
    isActive sl' = false /\
    accessCount sl' = accessCount sl /\
    lastAccessed sl' = lastAccessed sl /\
    (forall now,
       accessSharedSchedule now shareId (run ops s) = (None, run ops s)) /\
    (forall users tAccess tCheck,
       getSharedScheduleData users tAccess tCheck shareId (run ops s)
       = (None, run ops s)).
Proof.
  intros Hl Ha Hops. revert s sl Hl Ha.
  induction Hops as [|op ops Hop _ IH]; intros s sl Hl Ha.
  - exists sl. simpl. repeat (split; [done|]). split.
    + intros now. by apply (accessSharedSchedule_inactive _ _ _ sl).
    + intros users tA tC. apply getSharedScheduleData_not_active.
      right. by exists sl.
  - rewrite run_cons.
    destruct (revoked_exec op s shareId sl Hl Ha Hop)
      as (sl1 & Hl1 & Ha1 & Hc1 & Hd1).
    destruct (IH _ _ Hl1 Ha1) as (sl' & ? & ? & Hc & Hd & ? & ?).
    exists sl'. rewrite Hc, Hd. done.
Qed.

Lemma revocation_is_terminal_witness :
  let s1 := run [OpIssue "https://app" zeros 5000 "U1" plainArg;
                 OpAccess 5500 tokA; OpRevoke tokA] fresh in
  let ops := [OpUpdatePermissions tokA (Arg.mk None None None (Some true) None);
              OpAccess 6000 tokA;
              OpIssue "https://app" ones 6500 "U1" plainArg;
              OpGetProjection directory 7000 7001 tokA;
              OpRevoke tokA; OpGet tokA; OpListByOwner "U1"] in
  exists sl',
    shareLinks (run ops s1) !! tokA = Some sl' /\
    isActive sl' = false /\
    accessCount sl' = 1%Z /\
    (accessSharedSchedule 8000 tokA (run ops s1)).1 = None.
Proof.
  intros s1 ops.
  destruct (shareLinks s1 !! tokA) as [sl|] eqn:Hl;
    [|vm_compute in Hl; discriminate].
  assert (isActive sl = false) as Ha
    by (vm_compute in Hl; by injection Hl as <-).
  assert (accessCount sl = 1%Z) as Hc
    by (vm_compute in Hl; by injection Hl as <-).
  destruct (revocation_is_terminal ops s1 tokA sl Hl Ha)
    as (sl' & Hl' & Ha' & Hc' & _ & Hacc & _).
  - repeat constructor; vm_compute; discriminate.
  - exists sl'. rewrite (Hacc 8000%Z), Hc', Hc.
    split; [exact Hl'|]. split; [exact Ha'|]. split; reflexivity.
Defined.

(** * Further properties of the service *)

(** ** The generated ids *)

Section ShareIds.
Implicit Types (rnd : nat -> nat) (cs : list Ascii.ascii).

Lemma list_ascii_of_string_app s1 s2 :
  String.list_ascii_of_string (s1 +:+ s2)
  = String.list_ascii_of_string s1 ++ String.list_ascii_of_string s2.
Proof. induction s1 as [|c s1 IH]; simpl; [done|]. by rewrite IH. Qed.

Lemma string_get_lookup s j :
  String.get j s = String.list_ascii_of_string s !! j.
Proof. revert j. induction s as [|c s IH]; intros [|j]; simpl; done. Qed.

Lemma string_length_list s :
  String.length s = length (String.list_ascii_of_string s).
Proof. induction s; simpl; [done|]. by f_equal. Qed.

Lemma charAt_lookup s j c :
  String.list_ascii_of_string s !! j = Some c ->
  String.list_ascii_of_string (charAt s j) = [c].
Proof. unfold charAt. rewrite string_get_lookup. by intros ->. Qed.

(** The loop appends, turn by turn, the character of [chars] at the draw. *)
Lemma generateShareId_loop_chars rnd i n r cs :
  Forall2 (fun j c => alphabet !! rnd j = Some c) (seq i n) cs ->
  String.list_ascii_of_string (generateShareId_loop rnd i n r)
  = String.list_ascii_of_string r ++ cs.
Proof.
  revert i r cs. induction n as [|n IH]; intros i r cs H; simpl in *.
  - apply Forall2_nil_inv_l in H as ->. by rewrite app_nil_r.
  - apply Forall2_cons_inv_l in H as (c & cs' & Hc & Hcs & ->).
    rewrite (IH _ _ cs' Hcs), list_ascii_of_string_app.
    rewrite (charAt_lookup _ _ _ Hc). by rewrite <- app_assoc.
Qed.

Lemma in_range_draws rnd :
  in_range rnd ->
  exists cs, Forall2 (fun j c => alphabet !! rnd j = Some c) (seq 0 16) cs.
Proof.
  intros Hr.
  assert (forall js, Forall (fun j => j < 16) js ->
            exists cs, Forall2 (fun j c => alphabet !! rnd j = Some c) js cs)
    as H.
  { induction 1 as [|j js Hj _ [cs IH]]; [by exists []|].
    destruct (lookup_lt_is_Some_2 alphabet (rnd j)) as [c Hc].
    { unfold alphabet. rewrite <- string_length_list. by apply Hr. }
    exists (c :: cs). by constructor. }
  apply H. apply Forall_forall. intros j Hj%elem_of_seq. lia.
Qed.

Lemma alphabet_NoDup : NoDup alphabet.
Proof. apply (bool_decide_unpack _). vm_compute. exact I. Qed.

Lemma in_range_zeros : in_range zeros.
Proof. intros i _. unfold zeros. simpl. lia. Qed.

Lemma in_range_ones : in_range ones.
Proof. intros i _. unfold ones. simpl. lia. Qed.

(** X1: with every draw below the length of [chars], as [Math.floor] of
    [Math.random() * chars.length] is, the id has exactly sixteen
    characters, each of them a letter or digit of [chars]. *)
Theorem generateShareId_shape rnd :
  in_range rnd ->
  String.length (generateShareId rnd) = 16 /\
  Forall (fun c => c ∈ alphabet)
    (String.list_ascii_of_string (generateShareId rnd)).
Proof.
  intros Hr. destruct (in_range_draws rnd Hr) as [cs Hcs].
  unfold generateShareId.
  rewrite string_length_list, (generateShareId_loop_chars _ _ _ _ cs Hcs).
  simpl. split.
  - apply Forall2_length in Hcs. by rewrite <- Hcs.
  - apply Forall_forall. intros c Hc.
    apply list_elem_of_lookup in Hc as [k Hk].
    destruct (Forall2_lookup_r _ _ _ _ _ Hcs Hk) as (j & _ & Hj).
    by apply list_elem_of_lookup_2 in Hj.
Qed.

Lemma generateShareId_shape_witness :
  String.length (generateShareId ones) = 16 /\
  Forall (fun c => c ∈ alphabet)
    (String.list_ascii_of_string (generateShareId ones)).
Proof. exact (generateShareId_shape ones in_range_ones). Defined.

(** X2: two runs of [generateShareId] give the same id exactly when
    [Math.random] gave them the same sixteen draws: [chars] has no
    character twice. *)
Theorem generateShareId_same_iff rnd1 rnd2 :
  in_range rnd1 -> in_range rnd2 ->
  (generateShareId rnd1 = generateShareId rnd2 <->
   forall i, i < 16 -> rnd1 i = rnd2 i).
Proof.
  intros H1 H2.
  destruct (in_range_draws rnd1 H1) as [cs1 Hcs1].
  destruct (in_range_draws rnd2 H2) as [cs2 Hcs2].
  assert (forall i, i < 16 -> seq 0 16 !! i = Some i) as Hseq
    by (intros i Hi; by apply lookup_seq).
  split.
  - intros Heq i Hi.
    apply (f_equal String.list_ascii_of_string) in Heq.
    unfold generateShareId in Heq.
    rewrite (generateShareId_loop_chars _ _ _ _ cs1 Hcs1),
      (generateShareId_loop_chars _ _ _ _ cs2 Hcs2) in Heq.
    simpl in Heq. subst cs2.
    destruct (Forall2_lookup_l _ _ _ _ _ Hcs1 (Hseq i Hi)) as (c1 & Hc1 & Hd1).
    destruct (Forall2_lookup_l _ _ _ _ _ Hcs2 (Hseq i Hi)) as (c2 & Hc2 & Hd2).
    rewrite Hc1 in Hc2. injection Hc2 as <-.
    by apply (NoDup_lookup alphabet _ _ c1 alphabet_NoDup).
  - intros Heq.
    rewrite <- (String.string_of_list_ascii_of_string (generateShareId rnd1)),
      <- (String.string_of_list_ascii_of_string (generateShareId rnd2)).
    f_equal. unfold generateShareId.
    rewrite (generateShareId_loop_chars _ _ _ _ cs1 Hcs1),
      (generateShareId_loop_chars _ _ _ _ cs2 Hcs2).
    simpl. apply list_eq. intros i.
    destruct (decide (i < 16)) as [Hi|Hi].
    + destruct (Forall2_lookup_l _ _ _ _ _ Hcs1 (Hseq i Hi))
        as (c1 & -> & Hd1).
      destruct (Forall2_lookup_l _ _ _ _ _ Hcs2 (Hseq i Hi))
        as (c2 & -> & Hd2).
      rewrite (Heq i Hi) in Hd1. congruence.
    + apply Forall2_length in Hcs1, Hcs2. rewrite length_seq in Hcs1, Hcs2.
      rewrite !lookup_ge_None_2; [done|lia..].
Qed.

Lemma generateShareId_same_iff_witness :
  generateShareId zeros <> generateShareId ones.
Proof.
  intros Heq.
  pose proof (proj1 (generateShareId_same_iff zeros ones
                       in_range_zeros in_range_ones) Heq 0) as H.
  unfold zeros, ones in H. lia.
Defined.

End ShareIds.

(** ** What a call can do to the registry *)

(** One call leaves the registry as it is, or stores the record it issues
    under the generated id, or stores back, under a key that is there, the
    record found with [isActive] cleared, with other permissions, or with
    one more access at some time. *)
Lemma exec_registry op s :
  (issuedId op = None /\ shareLinks (exec op s) = shareLinks s) \/
  (exists sl, issuedId op = Some (id sl) /\ isActive sl = true /\
     shareLinks (exec op s) = <[id sl := sl]> (shareLinks s)) \/
  (exists k sl sl',
     issuedId op = None /\ shareLinks s !! k = Some sl /\
     shareLinks (exec op s) = <[k := sl']> (shareLinks s) /\
     (sl' = set_isActive false sl \/
      (exists q, sl' = set_permissions q sl) \/
      (isActive sl = true /\
       exists t, sl' = set_lastAccessed (Some t)
                         (set_accessCount (accessCount sl + 1) sl)))).
Proof.
  destruct op as [origin rnd now uid p| | |k|k p|now k|users tA tC k];
    cbn [exec issuedId]; try (by left).
  - right; left. exists (generateShareLink origin rnd now uid p s).1.
    unfold generateShareLink. cbn [fst snd].
    rewrite shareLinks_saved. by split_and!.
  - destruct (shareLinks s !! k) as [sl|] eqn:Hl;
      [|left; split; [done|by apply revokeShareLink_not_own]].
    rewrite (revokeShareLink_found _ _ _ Hl).
    right; right. exists k, sl, (set_isActive false sl). cbn [snd].
    rewrite shareLinks_saved. split_and!; try done. by left.
  - destruct (shareLinks s !! k) as [sl|] eqn:Hl;
      [|left; split; [done|by apply updateShareLinkPermissions_not_own]].
    rewrite (updateShareLinkPermissions_found _ _ _ _ Hl).
    right; right. eexists k, sl, _. cbn [snd].
    rewrite shareLinks_saved. split_and!; try done. right; left. by eexists.
  - unfold accessSharedSchedule.
    destruct (shareLinks s !! k) as [sl|] eqn:Hl; [|by left].
    destruct (isActive sl) eqn:Ha; [|by left].
    right; right. eexists k, sl, _. cbn [snd].
    rewrite shareLinks_saved. split_and!; try done. right; right.
    split; [done|]. by eexists.
  - rewrite getSharedScheduleData_state. unfold accessSharedSchedule.
    destruct (shareLinks s !! k) as [sl|] eqn:Hl; [|by left].
    destruct (isActive sl) eqn:Ha; [|by left].
    right; right. eexists k, sl, _. cbn [snd].
    rewrite shareLinks_saved. split_and!; try done. right; right.
    split; [done|]. by eexists.
Qed.

Lemma exec_dom op s :
  dom (shareLinks (exec op s))
  = dom (shareLinks s) ∪ list_to_set (option_list (issuedId op)).
Proof.
  destruct (exec_registry op s)
    as [[-> ->]|[(sl & -> & _ & ->)|(k & sl & sl' & -> & Hl & -> & _)]];
    simpl.
  - by rewrite union_empty_r_L.
  - rewrite dom_insert_L, union_empty_r_L. apply union_comm_L.
  - rewrite dom_insert_L, union_empty_r_L.
    apply subseteq_union_1_L, singleton_subseteq_l, elem_of_dom. by exists sl.
Qed.

(** X3: no call removes a record, and only an issue adds a key: after a
    sequence of calls the ids of the registry are those it had and those
    the issues of the sequence generated. *)
Theorem registry_keys_only_grow ops s :
  dom (shareLinks (run ops s)) = dom (shareLinks s) ∪ issuedIds ops.
Proof.
  revert s. induction ops as [|op ops IH]; intros s.
  - unfold issuedIds. simpl. by rewrite union_empty_r_L.
  - rewrite run_cons, IH, exec_dom. unfold issuedIds. simpl.
    rewrite <- (assoc_L (∪)). f_equal.
    destruct (issuedId op); simpl; [by rewrite union_empty_r_L|].
    by rewrite union_empty_l_L.
Qed.

(** A record stays under its key through a call that does not issue a
    record under it, with its identity fields, a counter that is not
    smaller, and active only if it was. *)
Lemma exec_keeps op s k sl :
  shareLinks s !! k = Some sl ->
  issuedId op <> Some k ->
  exists sl',
    shareLinks (exec op s) !! k = Some sl' /\
    id sl' = id sl /\ userId sl' = userId sl /\ link sl' = link sl /\
    createdAt sl' = createdAt sl /\ expiresAt sl' = expiresAt sl /\
    (accessCount sl <= accessCount sl')%Z /\
    (isActive sl' = true -> isActive sl = true).
Proof.
  intros Hl Hop.
  destruct (exec_registry op s)
    as [[_ ->]|[(sl0 & Hi & _ & ->)|(k' & sl0 & sl' & _ & Hl0 & -> & Hk)]].
  - exists sl. split_and!; done || lia.
  - rewrite lookup_insert_ne by congruence.
    exists sl. split_and!; done || lia.
  - destruct (decide (k' = k)) as [->|Hne].
    + rewrite lookup_insert_eq. exists sl'. simplify_eq.
      destruct Hk as [->|[[q ->]|[Ha [t ->]]]]; simpl;
        split_and!; done || lia.
    + rewrite lookup_insert_ne by done.
      exists sl. split_and!; done || lia.
Qed.

(** X4: through every sequence of calls in which no issue generates its id
    again, a record keeps its [id], [userId], [link], [createdAt] and
    [expiresAt], and its [accessCount] never goes down. *)
Theorem identity_fields_immutable ops s k sl :
  shareLinks s !! k = Some sl ->
  Forall (fun op => issuedId op <> Some k) ops ->
  exists sl',
    shareLinks (run ops s) !! k = Some sl' /\
    id sl' = id sl /\ userId sl' = userId sl /\ link sl' = link sl /\
    createdAt sl' = createdAt sl /\ expiresAt sl' = expiresAt sl /\
    (accessCount sl <= accessCount sl')%Z.
Proof.
  intros Hl Hops. revert s sl Hl.
  induction Hops as [|op ops Hop _ IH]; intros s sl Hl.
  - exists sl. simpl. split_and!; done || lia.
  - rewrite run_cons.
    destruct (exec_keeps op s k sl Hl Hop)
      as (sl1 & Hl1 & E1 & E2 & E3 & E4 & E5 & E6 & _).
    destruct (IH _ _ Hl1) as (sl' & ? & F1 & F2 & F3 & F4 & F5 & F6).
    exists sl'. rewrite F1, F2, F3, F4, F5. split_and!; done || lia.
Qed.

Lemma identity_fields_immutable_witness :
  let ops := [OpAccess 6000 tokA;
              OpUpdatePermissions tokA (Arg.mk (Some false) None None None
                                          (Some (DateAt 1)));
              OpIssue "https://app" ones 6500 "U2" plainArg;
              OpGetProjection directory 7000 7001 tokA;
              OpRevoke tokA] in
  exists sl',
    shareLinks (run ops withPlain) !! tokA = Some sl' /\
    userId sl' = "U1" /\ createdAt sl' = 5000%Z /\ expiresAt sl' = None /\
    (0 <= accessCount sl')%Z.
Proof.
  intros ops.
  destruct (identity_fields_immutable ops withPlain tokA
              (generateShareLink "https://app" zeros 5000 "U1" plainArg fresh).1)
    as (sl' & Hl' & _ & Hu & _ & Hc & He & Hn).
  - vm_compute. reflexivity.
  - repeat constructor; vm_compute; discriminate.
  - exists sl'. by split_and!.
Defined.

(** ** The owner's list and statistics *)

Lemma elem_of_values (m : gmap string ShareData) sl :
  sl ∈ (map_to_list m).*2 <-> exists k, m !! k = Some sl.
Proof.
  rewrite list_elem_of_fmap. split.
  - intros ([k sl'] & -> & H%elem_of_map_to_list). by exists k.
  - intros [k H]. exists (k, sl). split; [done|]. by apply elem_of_map_to_list.
Qed.

(** The values of the registry before and after a record is stored back
    under its key: the same list up to order, but for that record. *)
Lemma values_insert (m : gmap string ShareData) k sl sl' :
  m !! k = Some sl ->
  exists rest,
    (map_to_list m).*2 ≡ₚ sl :: rest /\
    (map_to_list (<[k := sl']> m)).*2 ≡ₚ sl' :: rest.
Proof.
  intros Hl. exists (map_to_list (delete k m)).*2. split.
  - rewrite <- (insert_delete_id m k sl Hl) at 1.
    by rewrite map_to_list_insert by apply lookup_delete_eq.
  - rewrite <- insert_delete_eq.
    by rewrite map_to_list_insert by apply lookup_delete_eq.
Qed.

Lemma foldl_views a l :
  foldl (fun sum sl => (sum + accessCount sl)%Z) a l = (a + views l)%Z.
Proof.
  revert a. induction l as [|sl l IH]; intros a; simpl; [lia|].
  rewrite IH. lia.
Qed.

Lemma views_Permutation l1 l2 : l1 ≡ₚ l2 -> views l1 = views l2.
Proof. induction 1; simpl; lia. Qed.

Lemma totalViews_views uid s :
  totalViews (getSharingStats uid s) = views (getUserShareLinks uid s).
Proof. unfold getSharingStats; simpl. rewrite foldl_views. lia. Qed.

(** X5: [getUserShareLinks] returns the records of the registry whose
    [userId] is the one asked for, revoked and expired ones included, and
    no other. *)
Theorem getUserShareLinks_exactly_owned uid s sl :
  sl ∈ getUserShareLinks uid s <->
  userId sl = uid /\ exists k, shareLinks s !! k = Some sl.
Proof.
  unfold getUserShareLinks. by rewrite list_elem_of_filter, elem_of_values.
Qed.

(** X6: what [handleCreateShare] relies on: the record just issued is in
    the owner's list and is what [getShareLink] returns for its id; its
    link is the origin, [?shared=] and that id. *)
Theorem generateShareLink_then_listed origin rnd now uid p s :
  let r := generateShareLink origin rnd now uid p s in
  r.1 ∈ getUserShareLinks uid r.2 /\
  getShareLink (id r.1) r.2 = Own r.1 /\
  link r.1 = origin +:+ "?shared=" +:+ id r.1.
Proof.
  cbv zeta. unfold getUserShareLinks, getShareLink, generateShareLink.
  cbn [fst snd]. rewrite shareLinks_saved, lookup_insert_eq.
  split; [|done].
  apply list_elem_of_filter. split; [done|].
  apply elem_of_values. eexists. apply lookup_insert_eq.
Qed.

(** X7: a revoked link is not deleted: [getShareLink] still returns it and
    it stays in its owner's list, with [isActive] false. *)
Theorem revokeShareLink_still_listed k s sl :
  shareLinks s !! k = Some sl ->
  set_isActive false sl
    ∈ getUserShareLinks (userId sl) (revokeShareLink k s).2 /\
  getShareLink k (revokeShareLink k s).2 = Own (set_isActive false sl).
Proof.
  intros Hl. rewrite (revokeShareLink_found _ _ _ Hl). cbn [snd].
  unfold getUserShareLinks, getShareLink.
  rewrite shareLinks_saved, lookup_insert_eq. split; [|done].
  apply list_elem_of_filter. split; [done|].
  apply elem_of_values. exists k. apply lookup_insert_eq.
Qed.

Lemma revokeShareLink_still_listed_witness :
  exists sl,
    getShareLink tokA (revokeShareLink tokA withPlain).2 = Own sl /\
    isActive sl = false /\
    sl ∈ getUserShareLinks "U1" (revokeShareLink tokA withPlain).2.
Proof.
  destruct (revokeShareLink_still_listed tokA withPlain
              (generateShareLink "https://app" zeros 5000 "U1" plainArg fresh).1)
    as [Hin Hget]; [vm_compute; reflexivity|].
  eexists. split; [exact Hget|]. split; [reflexivity|exact Hin].
Defined.

(** X8: in the statistics of an owner, the active links are at most the
    links, the links at most the records of the registry, and every link
    listed belongs to that owner. *)
Theorem getSharingStats_bounds uid s :
  let st := getSharingStats uid s in
  activeLinks st <= totalLinks st /\
  totalLinks st = length (links st) /\
  totalLinks st <= size (shareLinks s) /\
  Forall (fun sl => userId sl = uid) (links st).
Proof.
  cbv zeta. unfold getSharingStats; simpl. split; [apply length_filter|].
  split; [done|]. split.
  - unfold getUserShareLinks.
    etrans; [apply length_filter|].
    by rewrite length_fmap, length_map_to_list.
  - apply Forall_forall. intros sl Hsl. unfold getUserShareLinks in Hsl.
    by apply list_elem_of_filter in Hsl as [? _].
Qed.

(** X9: a successful access adds one to the [totalViews] of the owner of
    the link and nothing to those of any other user. *)
Theorem access_adds_one_view now k s sl uid :
  shareLinks s !! k = Some sl ->
  isActive sl = true ->
  totalViews (getSharingStats uid (accessSharedSchedule now k s).2)
  = (totalViews (getSharingStats uid s)
     + if decide (userId sl = uid) then 1 else 0)%Z.
Proof.
  intros Hl Ha. rewrite !totalViews_views.
  rewrite (accessSharedSchedule_Some _ _ _ _ Hl Ha). cbn [snd].
  unfold getUserShareLinks. rewrite shareLinks_saved.
  destruct (values_insert (shareLinks s) k sl
              (set_lastAccessed (Some now)
                 (set_accessCount (accessCount sl + 1) sl)) Hl)
    as (rest & H1 & H2).
  rewrite (views_Permutation _ _ (filter_Permutation _ _ _ H1)).
  rewrite (views_Permutation _ _ (filter_Permutation _ _ _ H2)).
  rewrite !filter_cons. simpl.
  destruct (decide (userId sl = uid)); simpl; lia.
Qed.

Lemma access_adds_one_view_witness :
  totalViews (getSharingStats "U1" (accessSharedSchedule 6000 tokA withPlain).2)
  = (totalViews (getSharingStats "U1" withPlain) + 1)%Z.
Proof.
  apply (access_adds_one_view 6000 tokA withPlain
           (generateShareLink "https://app" zeros 5000 "U1" plainArg fresh).1
           "U1").
  - vm_compute. reflexivity.
  - reflexivity.
Defined.

(** X10: revoking a link leaves the owner's [totalLinks] as it is and
    lowers [activeLinks] by one when the link was active, by nothing when
    it was revoked already or belongs to another user. *)
Theorem revoke_lowers_activeLinks k s sl uid :
  shareLinks s !! k = Some sl ->
  let st := getSharingStats uid s in
  let st' := getSharingStats uid (revokeShareLink k s).2 in
  totalLinks st' = totalLinks st /\
  activeLinks st
  = activeLinks st'
    + (if decide (userId sl = uid /\ isActive sl = true) then 1 else 0).
Proof.
  intros Hl. cbv zeta. rewrite (revokeShareLink_found _ _ _ Hl). cbn [snd].
  unfold getSharingStats, getUserShareLinks; simpl.
  rewrite shareLinks_saved.
  destruct (values_insert (shareLinks s) k sl (set_isActive false sl) Hl)
    as (rest & H1 & H2).
  rewrite !(Permutation_length
              (filter_Permutation _ _ _ (filter_Permutation _ _ _ H1))).
  rewrite !(Permutation_length
              (filter_Permutation _ _ _ (filter_Permutation _ _ _ H2))).
  rewrite (Permutation_length (filter_Permutation _ _ _ H1)).
  rewrite (Permutation_length (filter_Permutation _ _ _ H2)).
  rewrite !filter_cons. simpl.
  destruct (decide (userId sl = uid)) as [Hu|Hu].
  - rewrite !filter_cons. simpl.
    destruct (isActive sl); repeat case_decide; simpl; try lia; naive_solver.
  - rewrite decide_False by (by intros [? _]). lia.
Qed.


Lemma revoke_lowers_activeLinks_witness :
  activeLinks (getSharingStats "U1" withPlain) = 1 /\
  activeLinks (getSharingStats "U1" (revokeShareLink tokA withPlain).2) = 0 /\
  totalLinks (getSharingStats "U1" (revokeShareLink tokA withPlain).2) = 1.
Proof.
  destruct (revoke_lowers_activeLinks tokA withPlain
              (generateShareLink "https://app" zeros 5000 "U1" plainArg fresh).1
              "U1") as [Ht Ha]; [vm_compute; reflexivity|].
  assert (activeLinks (getSharingStats "U1" withPlain) = 1) as H1
    by (vm_compute; reflexivity).
  assert (totalLinks (getSharingStats "U1" withPlain) = 1) as H2
    by (vm_compute; reflexivity).
  rewrite H1 in Ha |- *. rewrite Ht, H2.
  assert (userId (generateShareLink "https://app" zeros 5000 "U1" plainArg fresh).1 = "U1" /\
          isActive (generateShareLink "https://app" zeros 5000 "U1" plainArg fresh).1 = true) as Hd
    by (split; reflexivity).
  rewrite (decide_True _ _ Hd) in Ha.
  split; [reflexivity|]. split; [lia|reflexivity].
Defined.

(** X11: a link issued under an id that was not in the registry adds one
    to its owner's [totalLinks] and [activeLinks] and nothing to
    [totalViews]; the statistics of every other user stay. *)
Theorem generateShareLink_stats origin rnd now uid p s uid' :
  shareLinks s !! generateShareId rnd = None ->
  let st := getSharingStats uid' s in
  let st' := getSharingStats uid'
               (generateShareLink origin rnd now uid p s).2 in
  let n := if decide (uid = uid') then 1 else 0 in
  totalLinks st' = totalLinks st + n /\
  activeLinks st' = activeLinks st + n /\
  totalViews st' = totalViews st.
Proof.
  intros Hfresh. cbv zeta. rewrite !totalViews_views.
  unfold getSharingStats, getUserShareLinks, generateShareLink; simpl.
  rewrite shareLinks_saved.
  set (sl := mkShareData _ _ _ _ _ _ _ _ _).
  assert ((map_to_list (<[generateShareId rnd := sl]> (shareLinks s))).*2
          ≡ₚ sl :: (map_to_list (shareLinks s)).*2) as Hp
    by (by rewrite map_to_list_insert).
  rewrite !(Permutation_length
              (filter_Permutation _ _ _ (filter_Permutation _ _ _ Hp))).
  rewrite (Permutation_length (filter_Permutation _ _ _ Hp)).
  rewrite (views_Permutation _ _ (filter_Permutation _ _ _ Hp)).
  rewrite !filter_cons. simpl.
  destruct (decide (uid = uid')); [|split_and!; lia].
  rewrite filter_cons. simpl. split_and!; lia.
Qed.

Lemma generateShareLink_stats_witness :
  totalLinks (getSharingStats "U1"
    (generateShareLink "https://app" ones 7000 "U1" plainArg withPlain).2) = 2.
Proof.
  destruct (generateShareLink_stats "https://app" ones 7000 "U1" plainArg
              withPlain "U1") as [Ht _]; [vm_compute; reflexivity|].
  rewrite Ht. vm_compute. reflexivity.
Defined.

(** ** The stored item *)

(** One call leaves the state as it is or saves a registry, with what it
    wrote on the inherited members. *)
Lemma exec_saves op s :
  exec op s = s \/
  exists m r, exec op s = saveShareLinks (set_inherited r (set_shareLinks m s)).
Proof.
  assert (forall r, set_inherited r s
                    = set_inherited r (set_shareLinks (shareLinks s) s)) as Hr
    by done.
  assert (forall m, set_shareLinks m s
                    = set_inherited (inherited s) (set_shareLinks m s)) as Hm
    by done.
  destruct op as [origin rnd now uid p| | |k|k p|now k|users tA tC k];
    cbn [exec]; try (by left).
  - right. unfold generateShareLink. cbn [snd]. rewrite Hm. by eexists _, _.
  - unfold revokeShareLink.
    destruct (shareLinks s !! k);
      [right; cbn [snd]; rewrite Hm; by eexists _, _|].
    destruct (inheritedValue (inherited s) k); cbn [snd];
      try (by left); right; rewrite Hr; by eexists _, _.
  - unfold updateShareLinkPermissions.
    destruct (shareLinks s !! k);
      [right; cbn [snd]; rewrite Hm; by eexists _, _|].
    destruct (inheritedValue (inherited s) k); cbn [snd];
      try (by left); right; rewrite Hr; by eexists _, _.
  - unfold accessSharedSchedule.
    destruct (shareLinks s !! k) as [sl|]; [|by left].
    destruct (isActive sl); [|by left].
    right. cbn [snd]. rewrite Hm. by eexists _, _.
  - rewrite getSharedScheduleData_state. unfold accessSharedSchedule.
    destruct (shareLinks s !! k) as [sl|]; [|by left].
    destruct (isActive sl); [|by left].
    right. cbn [snd]. rewrite Hm. by eexists _, _.
Qed.

Lemma synced_exec op s : synced s -> synced (exec op s).
Proof.
  intros Hs. destruct (exec_saves op s) as [->|(m & r & ->)]; [done|].
  destruct Hs as [Hw _]. unfold synced, saveShareLinks; simpl. by rewrite Hw.
Qed.

Lemma unwritable_exec op s :
  storageWritable s = false ->
  storageWritable (exec op s) = false /\
  storedShareLinks (exec op s) = storedShareLinks s.
Proof.
  intros Hw. destruct (exec_saves op s) as [->|(m & r & ->)]; [done|].
  unfold saveShareLinks; simpl. by rewrite Hw.
Qed.

(** X12: with a storage that takes the writes, the stored item follows the
    registry through every sequence of calls: a service constructed anew
    from the stored item, as after a reload of the page, has the registry
    the calls left. *)
Theorem reload_restores_registry stored ops :
  let s := run ops (constructor stored true) in
  shareLinks (constructor (storedShareLinks s) true) = shareLinks s.
Proof.
  cbv zeta.
  assert (forall s, synced s -> synced (run ops s)) as H.
  { induction ops as [|op ops IH]; intros s Hs; [done|].
    rewrite run_cons. by apply IH, synced_exec. }
  by destruct (H (constructor stored true)) as [_ ?].
Qed.

(** X13: when [setItem] throws, [saveShareLinks] swallows the exception:
    the calls go on changing the registry in memory, the stored item stays
    what it was, and a service constructed anew from it has the registry
    of before the calls, revocations included. *)
Theorem failed_writes_are_lost ops s :
  storageWritable s = false ->
  storedShareLinks (run ops s) = storedShareLinks s /\
  shareLinks (constructor (storedShareLinks (run ops s)) true)
  = loadShareLinks (storedShareLinks s).
Proof.
  intros Hw.
  assert (storageWritable (run ops s) = false /\
          storedShareLinks (run ops s) = storedShareLinks s) as [_ H].
  { revert s Hw. induction ops as [|op ops IH]; intros s Hw; [done|].
    rewrite run_cons. destruct (unwritable_exec op s Hw) as [Hw' <-].
    by apply IH. }
  split; [done|]. simpl. by rewrite H.
Qed.

Lemma failed_writes_are_lost_witness :
  let s := mkService (shareLinks withPlain) (Some (shareLinks withPlain))
             false ∅ in
  let s' := run [OpRevoke tokA] s in
  isActive <$> shareLinks s' !! tokA = Some false /\
  isActive <$> shareLinks (constructor (storedShareLinks s') true) !! tokA
  = Some true.
Proof.
  intros s s'. split; [vm_compute; reflexivity|].
  destruct (failed_writes_are_lost [OpRevoke tokA] s eq_refl) as [_ H].
  fold s' in H. rewrite H. vm_compute. reflexivity.
Defined.

(** ** Views, repeated accesses and expiry *)

(** X15: [getSharedScheduleData] returns a view only when the id is a key
    of the registry, the record under it is active and its [expiresAt] is
    not before the clock; and it does return one whenever, besides, the
    users item has a record under the record's [userId]. *)
Theorem getSharedScheduleData_when users tA tC k s :
  (is_Some (getSharedScheduleData users tA tC k s).1 ->
   exists sl, shareLinks s !! k = Some sl /\ isActive sl = true /\
              isExpired tC sl = false) /\
  ((exists sl, shareLinks s !! k = Some sl /\ isActive sl = true /\
               isExpired tC sl = false /\ is_Some (users !! userId sl)) ->
   is_Some (getSharedScheduleData users tA tC k s).1).
Proof.
  unfold getSharedScheduleData, accessSharedSchedule, getUserData.
  destruct (shareLinks s !! k) as [sl|] eqn:Hl; simpl.
  2: { split; [by intros [? ?]|by intros (? & ? & _)]. }
  destruct (isActive sl) eqn:Ha; simpl.
  2: { split; [by intros [? ?]|]. intros (? & ? & ? & _). congruence. }
  change (isExpired tC (set_lastAccessed (Some tA)
            (set_accessCount (accessCount sl + 1) sl)))
    with (isExpired tC sl).
  destruct (isExpired tC sl) eqn:He; simpl.
  { split; [by intros [? ?]|]. intros (? & ? & ? & ? & _). congruence. }
  split; [intros _; by exists sl|].
  intros (sl' & ? & _ & _ & [u Hu]). simplify_eq. rewrite Hu. by eexists.
Qed.

Lemma getSharedScheduleData_when_witness :
  is_Some (getSharedScheduleData directory 6000 6001 tokA withPlain).1.
Proof.
  apply (getSharedScheduleData_when directory 6000 6001 tokA withPlain).
  exists (generateShareLink "https://app" zeros 5000 "U1" plainArg fresh).1.
  split; [vm_compute; reflexivity|]. split; [reflexivity|].
  split; [reflexivity|]. exists alice. reflexivity.
Defined.



(** X17: accesses of an active link at the times [ts], one after the
    other, add their number to [accessCount], leave the last of the times
    in [lastAccessed] and the link active. *)
Theorem accesses_add_up ts k s sl :
  shareLinks s !! k = Some sl ->
  isActive sl = true ->
  exists sl',
    shareLinks (run (map (fun t => OpAccess t k) ts) s) !! k = Some sl' /\
    accessCount sl' = (accessCount sl + Z.of_nat (length ts))%Z /\
    lastAccessed sl' = (if ts is [] then lastAccessed sl else last ts) /\
    isActive sl' = true.
Proof.
  revert s sl. induction ts as [|t ts IH]; intros s sl Hl Ha.
  - exists sl. simpl. split; [done|]. split; [lia|done].
  - simpl map. rewrite run_cons. cbn [exec].
    rewrite (accessSharedSchedule_Some _ _ _ _ Hl Ha). cbn [snd].
    set (sl1 := set_lastAccessed (Some t)
                  (set_accessCount (accessCount sl + 1) sl)).
    set (s1 := saveShareLinks _).
    assert (shareLinks s1 !! k = Some sl1) as Hl1
      by (subst s1; rewrite shareLinks_saved; apply lookup_insert_eq).
    destruct (IH s1 sl1 Hl1 Ha) as (sl' & Hl' & Hc & Hd & Ha').
    exists sl'. split; [exact Hl'|]. subst sl1. simpl in Hc, Hd.
    split; [rewrite Hc, length_cons; lia|]. split; [|done].
    rewrite Hd. by destruct ts.
Qed.

Lemma accesses_add_up_witness :
  exists sl',
    shareLinks (run [OpAccess 6000 tokA; OpAccess 6100 tokA] withPlain) !! tokA
    = Some sl' /\
    accessCount sl' = 2%Z /\ lastAccessed sl' = Some 6100%Z.
Proof.
  destruct (accesses_add_up [6000%Z; 6100%Z] tokA withPlain
              (generateShareLink "https://app" zeros 5000 "U1" plainArg fresh).1)
    as (sl' & Hl' & Hc & Hd & _).
  - vm_compute. reflexivity.
  - reflexivity.
  - exists sl'. split; [exact Hl'|]. split; [exact Hc|exact Hd].
Defined.

(** X18: expiry follows the clock in one direction: a link expired at one
    time is expired at every later time; and a link without [expiresAt],
    or with one that is not a date, never expires. *)
Theorem isExpired_monotone t t' sl :
  (t <= t')%Z ->
  (isExpired t sl = true -> isExpired t' sl = true) /\
  (expiresAt sl = None \/ expiresAt sl = Some InvalidDate ->
   isExpired t sl = false).
Proof.
  intros Ht. unfold isExpired. split.
  - destruct (expiresAt sl) as [[e|]|]; [|done..].
    intros ?%Z.ltb_lt. apply Z.ltb_lt. lia.
  - by intros [->| ->].
Qed.

Lemma isExpired_monotone_witness :
  isExpired 9000
    (generateShareLink "https://app" zeros 5000 "U1" expiredArg fresh).1
  = true.
Proof.
  apply (isExpired_monotone 6000 9000); [lia|reflexivity].
Defined.

(** ** Updates, labels and the first view *)

Lemma mergePermissions_twice old p :
  mergePermissions (mergePermissions old p) p = mergePermissions old p.
Proof. destruct old, p as [[?|] [?|] [?|] [?|] ?]; reflexivity. Qed.

Lemma mergePermissions_empty old : mergePermissions old Arg.empty = old.
Proof. by destruct old. Qed.

Lemma set_permissions_twice q1 q2 sl :
  set_permissions q2 (set_permissions q1 sl) = set_permissions q2 sl.
Proof. done. Qed.

Lemma inherited_saved r s : inherited (saveShareLinks (set_inherited r s)) = r.
Proof. unfold saveShareLinks. by destruct (storageWritable _). Qed.

Lemma saveShareLinks_inherited_again r s :
  saveShareLinks (set_inherited r (saveShareLinks (set_inherited r s)))
  = saveShareLinks (set_inherited r s).
Proof.
  unfold saveShareLinks, set_inherited; simpl.
  by destruct (storageWritable s).
Qed.

Lemma inheritedValue_Member r k b :
  inheritedValue r k = Member b -> k ∈ builtinKeys /\ b = k.
Proof.
  unfold inheritedValue. case_bool_decide; [by intros [= <-]|].
  repeat case_bool_decide; repeat case_match; done.
Qed.

Lemma inheritedValue_ProtoPermissions r k o :
  inheritedValue r k = ProtoPermissions o ->
  (k ∉ builtinKeys) /\ k = "permissions" /\ protoPermissions r = Some o.
Proof.
  unfold inheritedValue. case_bool_decide; [done|].
  case_bool_decide; [|case_bool_decide; by (repeat case_match)].
  destruct (protoPermissions r); [|done]. by intros [= <-].
Qed.

(** Once [Object.prototype.permissions] holds an object, the key
    [permissions] resolves to it. *)
Lemma inheritedValue_permissions_written r a o :
  "permissions" ∉ builtinKeys ->
  inheritedValue (<["__proto__" := mkMemberProps a (Some o)]> r) "permissions"
  = ProtoPermissions o.
Proof.
  intros Hb. unfold inheritedValue.
  rewrite (bool_decide_eq_false_2 _ Hb), bool_decide_eq_true_2 by done.
  unfold protoPermissions, memberProps. by rewrite lookup_insert_eq.
Qed.

Lemma mergeArg_twice old p : mergeArg (mergeArg old p) p = mergeArg old p.
Proof. destruct old, p as [[?|] [?|] [?|] [?|] [?|]]; reflexivity. Qed.

Lemma mergeArg_self p : mergeArg p p = p.
Proof. by destruct p as [[?|] [?|] [?|] [?|] [?|]]. Qed.

Lemma spread_twice old p : spread (Some (spread old p)) p = spread old p.
Proof.
  destruct old as [[k a n]|]; simpl; [by rewrite mergeArg_twice|].
  by rewrite mergeArg_self.
Qed.

Lemma memberProps_insert b x (r : gmap string MemberProps) :
  memberProps (<[b := x]> r) b = x.
Proof. unfold memberProps. by rewrite lookup_insert_eq. Qed.

Lemma writePermissions_Member_twice b p r :
  writePermissions (Member b) p (writePermissions (Member b) p r)
  = writePermissions (Member b) p r.
Proof.
  unfold writePermissions. cbv zeta. rewrite !memberProps_insert.
  cbn [memberPermissions memberRevoked].
  by rewrite spread_twice, insert_insert_eq.
Qed.

Lemma writePermissions_Proto_twice o p r :
  let r1 := writePermissions (ProtoPermissions o) p r in
  forall o1, protoPermissions r1 = Some o1 ->
  writePermissions (ProtoPermissions o1) p r1 = r1.
Proof.
  cbv zeta. unfold writePermissions, protoPermissions, protoRevoked.
  rewrite !memberProps_insert. cbn [memberPermissions memberRevoked].
  intros o1 [= <-]. simpl.
  by rewrite mergeArg_twice, insert_insert_eq.
Qed.

Lemma updateShareLinkPermissions_inherited k p s i :
  shareLinks s !! k = None ->
  inheritedValue (inherited s) k = i ->
  truthy i = true ->
  updateShareLinkPermissions k p s
  = (true,
     saveShareLinks (set_inherited (writePermissions i p (inherited s)) s)).
Proof.
  unfold updateShareLinkPermissions. intros -> -> Hi. by destruct i.
Qed.

(** X19: the same update of permissions made twice gives the result and
    the state of making it once; and an update with no key at all leaves
    the registry as it is. *)
Theorem updateShareLinkPermissions_again k p s :
  let r1 := updateShareLinkPermissions k p s in
  let r2 := updateShareLinkPermissions k p r1.2 in
  r2 = r1 /\
  shareLinks (updateShareLinkPermissions k Arg.empty s).2 = shareLinks s.
Proof.
  cbv zeta. destruct (shareLinks s !! k) as [sl|] eqn:Hl.
  - rewrite !(updateShareLinkPermissions_found _ _ _ _ Hl). cbn [fst snd].
    erewrite updateShareLinkPermissions_found
      by (rewrite shareLinks_saved; apply lookup_insert_eq).
    split.
    + f_equal. rewrite shareLinks_saved, insert_insert_eq.
      rewrite set_permissions_twice.
      change (permissions (set_permissions ?q sl)) with q.
      rewrite mergePermissions_twice. apply saveShareLinks_again.
    + rewrite shareLinks_saved, mergePermissions_empty.
      apply insert_id. rewrite Hl. by destruct sl.
  - split; [|by apply updateShareLinkPermissions_not_own].
    destruct (inheritedValue (inherited s) k) as [b|o| |] eqn:Hi.
    + rewrite (updateShareLinkPermissions_inherited _ p _ _ Hl Hi eq_refl).
      cbn [snd]. apply inheritedValue_Member in Hi as [Hb ->].
      erewrite updateShareLinkPermissions_inherited; cycle 1.
      { by rewrite shareLinks_saved_inherited. }
      { rewrite inherited_saved. unfold inheritedValue.
        by rewrite (bool_decide_eq_true_2 _ Hb). }
      { reflexivity. }
      rewrite inherited_saved, writePermissions_Member_twice. f_equal.
      apply saveShareLinks_inherited_again.
    + rewrite (updateShareLinkPermissions_inherited _ p _ _ Hl Hi eq_refl).
      cbn [snd]. apply inheritedValue_ProtoPermissions in Hi as (Hb & -> & Ho).
      erewrite updateShareLinkPermissions_inherited; cycle 1.
      { by rewrite shareLinks_saved_inherited. }
      { rewrite inherited_saved. by apply inheritedValue_permissions_written. }
      { reflexivity. }
      rewrite inherited_saved, writePermissions_Proto_twice.
      * f_equal. apply saveShareLinks_inherited_again.
      * unfold protoPermissions, writePermissions.
        by rewrite memberProps_insert.
    + unfold updateShareLinkPermissions. rewrite Hl, Hi. cbn [snd].
      by rewrite Hl, Hi.
    + unfold updateShareLinkPermissions. rewrite Hl, Hi. cbn [snd].
      by rewrite Hl, Hi.
Qed.

(** X20: the label of a link in the owner's list is empty exactly when the
    link grants nothing. *)
Theorem getPermissionLabel_empty_iff p :
  getPermissionLabel p = "" <->
  canViewEvents p = false /\ canViewAvailability p = false /\
  canViewStatus p = false /\ canViewDetails p = false.
Proof.
  destruct p as [[] [] [] []]; vm_compute; split; try done;
    intros (? & ? & ? & ?); done.
Qed.

(** X21: a link just issued for an owner who has a user record, with no
    expiry or one not before the clock, can be viewed at once, whatever
    was in the registry: the view shows [accessCount] 1, the owner's name
    and the permissions the defaults gave. *)
Theorem issued_link_is_viewable origin rnd now uid p s users u tA tC :
  users !! uid = Some u ->
  (forall e, Arg.expiresAt p = Some (DateAt e) -> (tC <= e)%Z) ->
  exists v s',
    getSharedScheduleData users tA tC (generateShareId rnd)
      (generateShareLink origin rnd now uid p s).2 = (Some v, s') /\
    View.accessCount (View.shareInfo v) = 1%Z /\
    View.name (View.user v) = User.fullName u /\
    View.permissions (View.shareInfo v) = defaultPermissions p.
Proof.
  intros Hu He.
  set (r := generateShareLink origin rnd now uid p s).
  assert (shareLinks r.2 !! generateShareId rnd = Some r.1) as Hl.
  { subst r. unfold generateShareLink. cbn [fst snd].
    rewrite shareLinks_saved. apply lookup_insert_eq. }
  assert (isExpired tC (set_lastAccessed (Some tA)
            (set_accessCount (accessCount r.1 + 1) r.1)) = false) as Hx.
  { unfold isExpired. simpl.
    destruct (Arg.expiresAt p) as [[e|]|] eqn:Hp; [|done..].
    apply Z.ltb_ge. by apply He. }
  unfold getSharedScheduleData.
  rewrite (accessSharedSchedule_Some _ _ _ _ Hl eq_refl), Hx.
  unfold getUserData. simpl userId. rewrite Hu.
  eexists _, _. split; [reflexivity|]. done.
Qed.

Lemma issued_link_is_viewable_witness :
  exists v s',
    getSharedScheduleData directory 6000 6001 (generateShareId ones)
      (generateShareLink "https://app" ones 5000 "U1"
         (Arg.mk None None None None (Some (DateAt 9000))) withPlain).2
    = (Some v, s') /\
    View.accessCount (View.shareInfo v) = 1%Z /\
    View.name (View.user v) = "Alice".
Proof.
  destruct (issued_link_is_viewable "https://app" ones 5000 "U1"
              (Arg.mk None None None None (Some (DateAt 9000))) withPlain
              directory alice 6000 6001) as (v & s' & Hv & Hc & Hn & _).
  - reflexivity.
  - intros e [= <-]. lia.
  - exists v, s'. split; [exact Hv|]. split; [exact Hc|exact Hn].
Defined.
